(** * cypress-code-coverage-v8: the coverage task (src/task.ts)

    A shallow embedding of the Node-side coverage pipeline: the script
    filter, the untested-file synthesizer, the source resolver, the
    converter driver and the four Cypress task hooks, together with the
    properties the design document states about them.

    The program is glue around a file system, a Chrome debugger session and
    a handful of npm libraries.  The file system, the console and the
    session are an explicit [World] threaded through a small
    state-and-exception monad; the libraries (minimatch, fast-glob,
    @bcoe/v8-coverage, v8-to-istanbul, istanbul-lib-coverage, JSON, path,
    URL) are the fields of the class [Libraries].  Only what [error]
    prints is kept of the console: the lines of [debug] change nothing a
    hook reads or returns and are left out. *)

From stdpp Require Import gmap strings list pretty.
From Stdlib Require Import NArith ZArith Ascii String.

Local Open Scope string_scope.
Local Open Scope N_scope.

(** ** JavaScript strings

    Paths, URLs and glob patterns are [string]s.  The two string methods
    the filter uses are written out. *)

(** [s.startsWith(p)] *)
Fixpoint startsWith (s p : string) {struct p} : bool :=
  match p with
  | EmptyString => true
  | String c p' =>
      match s with
      | EmptyString => false
      | String d s' => if Ascii.eqb c d then startsWith s' p' else false
      end
  end.

(** [s.includes(p)]: [p] occurs at some position of [s]. *)
Fixpoint includes (s p : string) : bool :=
  startsWith s p ||
  match s with
  | EmptyString => false
  | String _ s' => includes s' p
  end.

(** ** Reading a file as text

    A file holds bytes; [readFile(f, { encoding: "utf-8" })] decodes them.
    The decoder below is the UTF-8 decoder of the Encoding standard: it
    yields one code point per well-formed sequence and U+FFFD per
    ill-formed one.  [text] is the decoded string as a list of code
    points; [js_length] is its [.length], counted in UTF-16 code units. *)

Definition text := list N.

Record utf8_state := Utf8State {
  u_code_point : N;
  u_seen : N;
  u_needed : N;
  u_lower : N;
  u_upper : N
}.

Definition utf8_idle : utf8_state := Utf8State 0 0 0 0x80 0xBF.

Definition replacement : N := 0xFFFD.

(** A byte met when no sequence is in progress. *)
Definition utf8_lead (b : N) : list N * utf8_state :=
  if b <=? 0x7F then ([b], utf8_idle)
  else if (0xC2 <=? b) && (b <=? 0xDF) then
    ([], Utf8State (N.land b 0x1F) 0 1 0x80 0xBF)
  else if (0xE0 <=? b) && (b <=? 0xEF) then
    ([], Utf8State (N.land b 0xF) 0 2
           (if b =? 0xE0 then 0xA0 else 0x80)
           (if b =? 0xED then 0x9F else 0xBF))
  else if (0xF0 <=? b) && (b <=? 0xF4) then
    ([], Utf8State (N.land b 0x7) 0 3
           (if b =? 0xF0 then 0x90 else 0x80)
           (if b =? 0xF4 then 0x8F else 0xBF))
  else ([replacement], utf8_idle).

Definition utf8_step (st : utf8_state) (b : N) : list N * utf8_state :=
  if u_needed st =? 0 then utf8_lead b
  else if negb ((u_lower st <=? b) && (b <=? u_upper st)) then
    (* ill-formed: emit U+FFFD and process the byte again from idle *)
    let '(out, st') := utf8_lead b in (replacement :: out, st')
  else
    let cp := N.lor (N.shiftl (u_code_point st) 6) (N.land b 0x3F) in
    let seen := u_seen st + 1 in
    if seen =? u_needed st then ([cp], utf8_idle)
    else ([], Utf8State cp seen (u_needed st) 0x80 0xBF).

Fixpoint utf8_decode_from (st : utf8_state) (bytes : string) : text :=
  match bytes with
  | EmptyString => if u_needed st =? 0 then [] else [replacement]
  | String a rest =>
      let '(out, st') := utf8_step st (N_of_ascii a) in
      (out ++ utf8_decode_from st' rest)%list
  end.

Definition utf8_decode (bytes : string) : text := utf8_decode_from utf8_idle bytes.

Definition code_units (cp : N) : N := if cp <? 0x10000 then 1 else 2.

Definition js_length (t : text) : N := foldr (fun cp n => code_units cp + n) 0 t.

(** Writing text with the encoding ["utf8"]: the bytes of each code point;
    a lone surrogate is written as U+FFFD. *)
Definition utf8_encode_cp (cp : N) : list N :=
  if cp <? 0x80 then [cp]
  else if cp <? 0x800 then
    [N.lor 0xC0 (N.shiftr cp 6); N.lor 0x80 (N.land cp 0x3F)]
  else if (0xD800 <=? cp) && (cp <=? 0xDFFF) then [0xEF; 0xBF; 0xBD]
  else if cp <? 0x10000 then
    [N.lor 0xE0 (N.shiftr cp 12);
     N.lor 0x80 (N.land (N.shiftr cp 6) 0x3F);
     N.lor 0x80 (N.land cp 0x3F)]
  else
    [N.lor 0xF0 (N.shiftr cp 18);
     N.lor 0x80 (N.land (N.shiftr cp 12) 0x3F);
     N.lor 0x80 (N.land (N.shiftr cp 6) 0x3F);
     N.lor 0x80 (N.land cp 0x3F)].

Definition utf8_encode (t : text) : string :=
  foldr (fun cp rest =>
           foldr (fun b s => String (ascii_of_N b) s) rest (utf8_encode_cp cp))
        EmptyString t.

(** The number of bytes of a file. *)
Definition byte_length (bytes : string) : N := N.of_nat (String.length bytes).

(** JavaScript truthiness of a string: [!s] holds exactly for [""]. *)
Definition text_falsy (t : text) : bool := match t with [] => true | _ => false end.
Definition string_falsy (s : string) : bool := match s with EmptyString => true | _ => false end.

(** ** Data model *)

(** [Profiler.CoverageRange], [Profiler.FunctionCoverage],
    [Profiler.ScriptCoverage] and [Profiler.TakePreciseCoverageReturnType]
    of the inspector protocol. *)
Record CoverageRange := {
  startOffset : N;
  endOffset : N;
  count : N
}.

Record FunctionCoverage := {
  functionName : string;
  ranges : list CoverageRange;
  isBlockCoverage : bool
}.

Record ScriptCoverage := {
  scriptId : string;
  url : string;
  functions : list FunctionCoverage
}.

Record ProcessCov := { result : list ScriptCoverage }.

Record CypressV8CoverageOptions := {
  coverageDir : string;
  baseUrls : list string;
  srcDir : string;
  buildDir : string;
  includeUncovered : bool;
  include : list string;
  exclude : list string;
  includeV8Patterns : list string;
  excludeV8Patterns : list string
}.

(** What can be thrown. *)
Inductive Exn :=
| ENOENT (path : string)        (* reading or unlinking a missing file *)
| SyntaxError (path : string)   (* JSON.parse of the content of [path] *)
| TypeError (path : string)     (* [.sources.map] on the value parsed from [path] *)
| InvalidURL (u : string)       (* new URL(u) *)
| LibraryError (msg : string).  (* raised by v8-to-istanbul or the protocol client *)

Inductive Result (A : Type) :=
| Ok (a : A)
| Throw (e : Exn).
Arguments Ok {A} a.
Arguments Throw {A} e.

(** Calls of [error(msg)]: what is printed on the console with the plugin
    prefix. *)
Inductive Diagnostic :=
| MapFileError (filePath : string) (e : Exn)
| ConversionError (filePath : string)
| ConversionErrorDetail (e : Exn)
| ConnectionLostStart
| ConnectionLostTake.

(** The debugger session [cdp]: the commands sent to its [Profiler]
    domain, what [takePreciseCoverage] answers, and the error with which
    the client rejects one of the other commands, if it does (a client
    whose connection is closed rejects them). *)
Inductive ProfilerCommand :=
| Enable
| StartPreciseCoverage (callCount detailed : bool)
| TakePreciseCoverage
| StopPreciseCoverage.

Record Session := {
  snapshot : Result ProcessCov;
  issued : list ProfilerCommand;
  rejects : ProfilerCommand -> option Exn
}.

(** What [JSON.parse] gives for a map file, as far as the resolver looks
    at it: an object whose [sources] is an array, with the entries of the
    array and the other fields; or any other value ([null], [{}], a
    number, an object whose [sources] is no array), on which
    [sourceMap.sources.map] throws a [TypeError]. *)
Inductive MapValue (S Rest Other : Type) :=
| WithSources (srcs : list S) (rest : Rest)
| WithoutSources (v : Other).
Arguments WithSources {S Rest Other} srcs rest.
Arguments WithoutSources {S Rest Other} v.

(** What a task hands back to Cypress. *)
Inductive TaskValue :=
| Null
| Replies (cmds : list ProfilerCommand).

(** The file system, the module variable [cdp] and the console.  [files]
    are the regular files by path and [dirs] the directories; a path the
    hooks read, write or unlink names a regular file or nothing. *)
Record World := {
  files : gmap string string;
  dirs : gset string;
  cdp : option Session;
  console : list Diagnostic
}.

(** ** State and exceptions *)

Definition M (A : Type) : Type := World -> Result A * World.

Definition ret {A} (a : A) : M A := fun w => (Ok a, w).

Definition bind {A B} (m : M A) (k : A -> M B) : M B :=
  fun w =>
    match m w with
    | (Ok a, w') => k a w'
    | (Throw e, w') => (Throw e, w')
    end.

Definition throw {A} (e : Exn) : M A := fun w => (Throw e, w).

(** [try { m } catch (e) { h e }] *)
Definition try_catch {A} (m : M A) (h : Exn -> M A) : M A :=
  fun w =>
    match m w with
    | (Ok a, w') => (Ok a, w')
    | (Throw e, w') => h e w'
    end.

Declare Scope hook_scope.
Delimit Scope hook_scope with hook.
Notation "x <- m ;; k" := (bind m (fun x => k))
  (at level 100, m at next level, right associativity) : hook_scope.
Notation "m ;;; k" := (bind m (fun _ => k))
  (at level 100, right associativity) : hook_scope.
Local Open Scope hook_scope.

Definition with_files (f : gmap string string -> gmap string string) (w : World) : World :=
  {| files := f (files w); dirs := dirs w; cdp := cdp w; console := console w |}.

Definition with_cdp (c : option Session) (w : World) : World :=
  {| files := files w; dirs := dirs w; cdp := c; console := console w |}.

(** [existsSync(p)], [p] the path of an artifact *)
Definition existsSync (p : string) : M bool :=
  fun w => (Ok (bool_decide (is_Some (files w !! p))), w).

(** [existsSync(p)], [p] the path of the coverage directory *)
Definition existsSync_dir (p : string) : M bool :=
  fun w => (Ok (bool_decide (p ∈ dirs w)), w).

(** [readFileSync(p, "utf8")] and [await fs.readFile(p, { encoding: "utf-8" })] *)
Definition readFile (p : string) : M text :=
  fun w =>
    match files w !! p with
    | Some bytes => (Ok (utf8_decode bytes), w)
    | None => (Throw (ENOENT p), w)
    end.

(** [writeFileSync(p, data, "utf8")] *)
Definition writeFileSync (p : string) (data : text) : M unit :=
  fun w => (Ok tt, with_files (insert p (utf8_encode data)) w).

(** [unlinkSync(p)] *)
Definition unlinkSync (p : string) : M unit :=
  fun w =>
    match files w !! p with
    | Some _ => (Ok tt, with_files (delete p) w)
    | None => (Throw (ENOENT p), w)
    end.

(** [mkdirSync(p)], the parent of [p] being there *)
Definition mkdirSync (p : string) : M unit :=
  fun w =>
    (Ok tt, {| files := files w; dirs := {[p]} ∪ dirs w; cdp := cdp w; console := console w |}).

(** [error(msg)] *)
Definition error (d : Diagnostic) : M unit :=
  fun w =>
    (Ok tt, {| files := files w; dirs := dirs w; cdp := cdp w; console := (console w ++ [d])%list |}).

(** The error of the first of [cmds] that the client rejects. *)
Definition rejection (s : Session) (cmds : list ProfilerCommand) : option Exn :=
  head (omap (rejects s) cmds).

(** [cdp.Profiler.<command>()] for the commands whose answer is not
    looked at, all called before the first is awaited; the module
    variable [cdp] is read at the call.  The promise is rejected when the
    client rejects one of them. *)
Definition send (cmds : list ProfilerCommand) : M unit :=
  fun w =>
    match cdp w with
    | Some s =>
        (match rejection s cmds with Some e => Throw e | None => Ok tt end,
         with_cdp (Some {| snapshot := snapshot s; issued := (issued s ++ cmds)%list;
                           rejects := rejects s |}) w)
    | None => (Throw (LibraryError "cdp is undefined"), w)
    end.

(** [await cdp.Profiler.takePreciseCoverage()] *)
Definition takePreciseCoverage : M ProcessCov :=
  fun w =>
    match cdp w with
    | Some s =>
        (snapshot s,
         with_cdp (Some {| snapshot := snapshot s;
                           issued := (issued s ++ [TakePreciseCoverage])%list;
                           rejects := rejects s |}) w)
    | None => (Throw (LibraryError "cdp is undefined"), w)
    end.

(** [for (x of l) acc = await f(x, acc)], stopping at the first throw. *)
Fixpoint foldM {A B} (f : B -> A -> M A) (l : list B) (acc : A) : M A :=
  match l with
  | [] => ret acc
  | x :: l' => acc' <- f x acc ;; foldM f l' acc'
  end.

(** [await Promise.all(l.map(async x => f(x)))] *)
Fixpoint mapM {A B} (f : A -> M B) (l : list A) : M (list B) :=
  match l with
  | [] => ret []
  | x :: l' => y <- f x ;; ys <- mapM f l' ;; ret (y :: ys)
  end.

(** ** The libraries

    What the task imports from npm and from Node, as functions.  Files a
    library reads are passed to it as the file map. *)
Class Libraries := {
  (** istanbul-lib-coverage: the coverage record of one file and
      [FileCoverage.merge] *)
  FileCoverage : Type;
  fc_merge : FileCoverage -> FileCoverage -> FileCoverage;
  (** the fields of an [EncodedSourceMap] other than [sources] *)
  SourceMapRest : Type;
  (** a JSON value that is not an object with an array [sources], and
      its truthiness *)
  JSONValue : Type;
  json_truthy : JSONValue -> bool;
  (** [minimatch(url, pattern)] *)
  minimatch : string -> string -> bool;
  (** [mergeProcessCovs] of @bcoe/v8-coverage *)
  mergeProcessCovs : list ProcessCov -> ProcessCov;
  (** [fg(patterns, { cwd, ignore })] of fast-glob *)
  fg : list string -> string -> list string -> gmap string string -> list string;
  (** [path.resolve(p)], [path.resolve(from, p)] and [path.join(a, b)] *)
  path_resolve : string -> string;
  path_resolve_from : string -> string -> string;
  path_join : string -> string -> string;
  (** [new URL(u).pathname]; [None] when the constructor throws *)
  url_pathname : string -> option string;
  (** [JSON.parse] of the raw artifact, of the canonical artifact and of a
      map file; [None] when it throws.  For the two artifacts the value is
      of the type the task casts it to; for a map file it is any JSON
      value, an entry of [sources] being a string or [null] (another
      value counts as the string a template literal makes of it).
      [JSON.stringify] of the two artifacts. *)
  parse_v8 : text -> option ProcessCov;
  stringify_v8 : ProcessCov -> text;
  parse_istanbul : text -> option (gmap string FileCoverage);
  stringify_istanbul : gmap string FileCoverage -> text;
  parse_sourcemap : text -> option (MapValue (option string) SourceMapRest JSONValue);
  (** [v8ToIstanbul(path, undefined, sources)], [load], [applyCoverage]
      and [toIstanbul] in one step *)
  v8ToIstanbul :
    gmap string string -> string -> list FunctionCoverage ->
    text -> text -> option (MapValue string SourceMapRest JSONValue) ->
    Result (gmap string FileCoverage)
}.

(** [CoverageMap] of istanbul-lib-coverage: the record of each file. *)
Abbreviation CoverageMap := (gmap string FileCoverage).

Section Task.
Context {L : Libraries}.

(** [sourceMap] holds the value of [sourceMap.sourcemap]: an
    [EncodedSourceMap] with its [sources], or the value parsed from the
    map file as it was. *)
Record V8ToIstanbulSources := {
  source : text;
  originalSource : text;
  sourceMap : option (MapValue string SourceMapRest JSONValue)
}.

(** [coverageMap.merge(other)] of istanbul-lib-coverage: a file present on
    both sides has its records merged, any other is taken over. *)
Definition cm_merge (m other : CoverageMap) : CoverageMap :=
  union_with (fun a b => Some (fc_merge a b)) m other.

(** [coverageMap.files()] *)
Definition cm_files (m : CoverageMap) : list string := (map_to_list m).*1.

(** The module variable [_options], set once by [register]. *)
Variable _options : CypressV8CoverageOptions.

(** *** Script filter *)
Definition filterV8CoverageResult (coverage : ScriptCoverage) : bool :=
  if negb (existsb (fun u => startsWith (url coverage) u) (baseUrls _options)) then false
  else if includes (url coverage) "/node_modules/" then false
  else
    let isIncluded :=
      existsb (fun pattern => minimatch (url coverage) pattern) (includeV8Patterns _options) in
    let isExcluded :=
      existsb (fun pattern => minimatch (url coverage) pattern) (excludeV8Patterns _options) in
    isIncluded && negb isExcluded.

(** *** Untested files *)

(** The record made up for one untested file. *)
Definition emptyReport (file : string) (originalSource : text) : ScriptCoverage :=
  {| url := file;
     scriptId := "0";
     functions :=
       [ {| ranges := [ {| startOffset := 0;
                           endOffset := js_length originalSource;
                           count := 0 |} ];
            isBlockCoverage := true;
            functionName := "(empty-report)" |} ] |}.

Definition allFiles (fs : gmap string string) : list string :=
  map (fun file => path_resolve_from (srcDir _options) file)
      (fg (include _options) (srcDir _options) (exclude _options) fs).

Definition untestedFiles (testedFiles : list string) (fs : gmap string string) : list string :=
  List.filter (fun file => negb (bool_decide (file ∈ testedFiles))) (allFiles fs).

(** The reports handed to [mergeProcessCovs], one per untested file. *)
Definition untestedReports (testedFiles : list string) : M (list ProcessCov) :=
  fun w =>
    mapM (fun file =>
            originalSource <- readFile file ;;
            ret {| result := [emptyReport file originalSource] |})
         (untestedFiles testedFiles (files w)) w.

Definition getUntestedFileCoverage (testedFiles : list string) : M ProcessCov :=
  coverages <- untestedReports testedFiles ;;
  ret (mergeProcessCovs ({| result := [] |} :: coverages)).

(** *** Source resolver *)

Definition rewriteSource (source : option string) : string :=
  path_resolve (buildDir _options +:+ match source with Some s => s | None => "null" end).

(** The variable [sourceMap] is assigned the parsed value before
    [sourceMap.sources.map] is called: when that call throws, the [catch]
    prints the error and the variable keeps the parsed value, which is
    handed on when it is truthy. *)
Definition getSources (filePath : string) : M V8ToIstanbulSources :=
  let mapFilePath := filePath +:+ ".map" in
  parsed <-
    try_catch
      (mapFile <- readFile mapFilePath ;;
       match parse_sourcemap mapFile with
       | None => throw (SyntaxError mapFilePath)
       | Some value => ret (Some value)
       end)
      (fun e => error (MapFileError filePath e) ;;; ret None) ;;
  sourceMap <-
    match parsed with
    | None => ret None
    | Some (WithSources srcs rest) => ret (Some (WithSources (map rewriteSource srcs) rest))
    | Some (WithoutSources v) =>
        error (MapFileError filePath (TypeError mapFilePath)) ;;;
        ret (if json_truthy v then Some (WithoutSources v) else None)
    end ;;
  jsFileCode <- readFile filePath ;;
  ret {| source := jsFileCode; originalSource := jsFileCode; sourceMap := sourceMap |}.

(** *** Converter driver *)

Definition convertCoverage (filePath : string) (fns : list FunctionCoverage)
    (bundle : V8ToIstanbulSources) : M (option CoverageMap) :=
  try_catch
    (fun w =>
       match v8ToIstanbul (files w) filePath fns
               (source bundle) (originalSource bundle) (sourceMap bundle) with
       | Ok c => (Ok (Some c), w)
       | Throw e => (Throw e, w)
       end)
    (fun e =>
       error (ConversionError filePath) ;;;
       error (ConversionErrorDetail e) ;;;
       ret None).

Definition convertScript (script : ScriptCoverage) (coverageMap : CoverageMap) : M CoverageMap :=
  match url_pathname (url script) with
  | None => throw (InvalidURL (url script))
  | Some jsFileName =>
      let filePath := path_resolve (buildDir _options +:+ jsFileName) in
      bundle <- getSources filePath ;;
      if text_falsy (source bundle) then ret coverageMap
      else
        istanbulCoverage <- convertCoverage filePath (functions script) bundle ;;
        match istanbulCoverage with
        | Some c => ret (cm_merge coverageMap c)
        | None => ret coverageMap
        end
  end.

Definition convertUntested (script : ScriptCoverage) (coverageMap : CoverageMap) : M CoverageMap :=
  istanbulCoverage <-
    convertCoverage (url script) (functions script)
      {| source := []; originalSource := []; sourceMap := None |} ;;
  match istanbulCoverage with
  | Some c => ret (cm_merge coverageMap c)
  | None => ret coverageMap
  end.

(** The callbacks of each [Promise.all] are run one after the other, in
    the order of the list; the first one that throws ends the call. *)
Definition generateCoverage (coverage : ProcessCov) (existingIstanbulCoverage : CoverageMap)
    : M CoverageMap :=
  coverageMap <- foldM convertScript (result coverage) existingIstanbulCoverage ;;
  if includeUncovered _options then
    untestedCoverage <- getUntestedFileCoverage (cm_files coverageMap) ;;
    foldM convertUntested (result untestedCoverage) coverageMap
  else ret coverageMap.

(** *** Test hooks *)

Definition rawArtifact (testFileName : string) : string :=
  path_join (coverageDir _options) (testFileName +:+ "_v8.json").

Definition canonicalArtifact (testFileName : string) : string :=
  path_join (coverageDir _options) (testFileName +:+ ".json").

(** [JSON.parse(readFileSync(p, "utf8"))] *)
Definition readJSON {A} (parse : text -> option A) (p : string) : M A :=
  data <- readFile p ;;
  match parse data with
  | Some a => ret a
  | None => throw (SyntaxError p)
  end.

Definition v8CoverageBefore (testFileName : string) : M TaskValue :=
  let oldV8CoverageFile := rawArtifact testFileName in
  present <- existsSync oldV8CoverageFile ;;
  (if present : bool then unlinkSync oldV8CoverageFile else ret tt) ;;;
  let oldIstanbulCoverageFile := canonicalArtifact testFileName in
  present <- existsSync oldIstanbulCoverageFile ;;
  (if present : bool then unlinkSync oldIstanbulCoverageFile else ret tt) ;;;
  ret Null.

Definition v8CoverageBeforeEach : M TaskValue :=
  fun w =>
    match cdp w with
    | Some _ =>
        (let cmds := [Enable; StartPreciseCoverage true true] in
         send cmds ;;; ret (Replies cmds)) w
    | None => (error ConnectionLostStart ;;; ret Null) w
    end.

Definition v8CoverageAfterEach (testFileName : string) : M TaskValue :=
  fun w =>
    match cdp w with
    | Some _ =>
        (rawV8Coverage <- takePreciseCoverage ;;
         let filteredV8Coverage := List.filter filterV8CoverageResult (result rawV8Coverage) in
         present <- existsSync_dir (coverageDir _options) ;;
         (if present : bool then ret tt else mkdirSync (coverageDir _options)) ;;;
         let filename := rawArtifact testFileName in
         present <- existsSync filename ;;
         previousCoverage <-
           (if present : bool then readJSON parse_v8 filename else ret {| result := [] |}) ;;
         let merged := mergeProcessCovs [previousCoverage; {| result := filteredV8Coverage |}] in
         writeFileSync filename (stringify_v8 merged) ;;;
         send [StopPreciseCoverage] ;;;
         ret (Replies [StopPreciseCoverage])) w
    | None => (error ConnectionLostTake ;;; ret Null) w
    end.

Definition v8CoverageAfter (testFileName : string) : M TaskValue :=
  let v8CoverageFile := rawArtifact testFileName in
  present <- existsSync v8CoverageFile ;;
  if negb present then ret Null
  else
    v8Coverage <- readJSON parse_v8 v8CoverageFile ;;
    let existingIstanbulCoverageFile := canonicalArtifact testFileName in
    present <- existsSync existingIstanbulCoverageFile ;;
    existingIstanbulCoverage <-
      (if present : bool then readJSON parse_istanbul existingIstanbulCoverageFile
       else ret ∅) ;;
    istanbulCoverage <- generateCoverage v8Coverage existingIstanbulCoverage ;;
    writeFileSync existingIstanbulCoverageFile (stringify_istanbul istanbulCoverage) ;;;
    unlinkSync v8CoverageFile ;;;
    ret Null.

End Task.

(** *** Registration *)

(** [Partial<CypressV8CoverageOptions>] *)
Record PartialOptions := {
  opt_coverageDir : option string;
  opt_baseUrls : option (list string);
  opt_srcDir : option string;
  opt_buildDir : option string;
  opt_includeUncovered : option bool;
  opt_include : option (list string);
  opt_exclude : option (list string);
  opt_includeV8Patterns : option (list string);
  opt_excludeV8Patterns : option (list string)
}.

(** The fields of [Cypress.PluginConfigOptions] that [register] touches. *)
Record PluginConfig := {
  baseUrl : option string;
  v8CoveragePluginRegistered : bool
}.

(** [options?.field ?? fallback] *)
Definition option_or {A} (options : option PartialOptions)
    (field : PartialOptions -> option A) (fallback : A) : A :=
  match options with
  | Some o => match field o with Some a => a | None => fallback end
  | None => fallback
  end.

Section Register.
Context {L : Libraries}.

Definition resolveOptions (config : PluginConfig) (options : option PartialOptions)
    : CypressV8CoverageOptions :=
  {| coverageDir := path_resolve (option_or options opt_coverageDir "cypress-coverage");
     baseUrls :=
       option_or options opt_baseUrls
         match baseUrl config with
         | Some b => if string_falsy b then [] else [b]
         | None => []
         end;
     srcDir := path_resolve (option_or options opt_srcDir "src");
     buildDir := path_resolve (option_or options opt_buildDir "dist");
     includeUncovered := option_or options opt_includeUncovered true;
     include := option_or options opt_include ["**/*.ts"; "**/*.tsx"; "**/*.js"; "**/*.jsx"];
     exclude :=
       option_or options opt_exclude
         ["**/*.spec.ts"; "**/*.spec.tsx"; "**/*.spec.jsx"; "**/*.spec.js"; "**/*.d.ts"];
     includeV8Patterns := option_or options opt_includeV8Patterns ["**/assets/**/*.js"];
     excludeV8Patterns := option_or options opt_excludeV8Patterns ["**/__cypress/**"; "**/__/**"] |}.

(** [register(on, config, options)]: the value given to [_options] when the
    tasks are registered, and the configuration returned.
    [CYPRESS_COVERAGE] is [process.env.CYPRESS_COVERAGE]. *)
Definition register (CYPRESS_COVERAGE : option string) (config : PluginConfig)
    (options : option PartialOptions) : option CypressV8CoverageOptions * PluginConfig :=
  if bool_decide (CYPRESS_COVERAGE = Some "true") then
    (Some (resolveOptions config options),
     {| baseUrl := baseUrl config; v8CoveragePluginRegistered := true |})
  else (None, config).

End Register.

(** ** A concrete set of libraries and a small project

    Stand-ins that compute, used to run the hooks on examples: a wildcard
    matcher where [*] matches any run of characters, POSIX path
    resolution from the working directory [/app], a converter that sums
    the hit counts of a script, and printers for the two artifacts with
    parsers that recognise the artifacts of the examples. *)
Module Demo.

Fixpoint wildcard (pattern : string) : string -> bool :=
  match pattern with
  | EmptyString => string_falsy
  | String c pattern' =>
      if Ascii.eqb c "*" then
        fix run (s : string) : bool :=
          wildcard pattern' s ||
          match s with
          | EmptyString => false
          | String _ s' => run s'
          end
      else
        fun s =>
          match s with
          | EmptyString => false
          | String d s' => Ascii.eqb c d && wildcard pattern' s'
          end
  end.

Definition cwd : string := "/app".

Fixpoint segments (s cur : string) : list string :=
  match s with
  | EmptyString => [cur]
  | String c s' =>
      if Ascii.eqb c "/" then cur :: segments s' ""
      else segments s' (cur +:+ String c "")
  end.

Definition normalize (segs : list string) : list string :=
  rev (foldl (fun stack seg =>
                if bool_decide (seg = "") || bool_decide (seg = ".") then stack
                else if bool_decide (seg = "..") then tail stack
                else seg :: stack) [] segs).

Definition absolute (segs : list string) : string :=
  match segs with
  | [] => "/"
  | _ => foldr (fun seg acc => "/" +:+ seg +:+ acc) "" segs
  end.

Definition resolve (p : string) : string :=
  absolute (normalize (segments (if startsWith p "/" then p else cwd +:+ "/" +:+ p) "")).

Definition resolve_from (from p : string) : string :=
  resolve (if startsWith p "/" then p else from +:+ "/" +:+ p).

Definition join (a b : string) : string := resolve (a +:+ "/" +:+ b).

(** The path of an [http://host/path] URL. *)
Fixpoint from_slash (s : string) : string :=
  match s with
  | EmptyString => "/"
  | String c s' => if Ascii.eqb c "/" then s else from_slash s'
  end.

Definition pathname (u : string) : option string :=
  if startsWith u "http://" then Some (from_slash (String.substring 7 (String.length u) u))
  else None.

(** Files below [dir] selected by the patterns, relative to [dir]. *)
Definition glob_files (patterns : list string) (dir : string) (ignore : list string)
    (fs : gmap string string) : list string :=
  List.filter
    (fun rel => existsb (fun p => wildcard p rel) patterns
                && negb (existsb (fun p => wildcard p rel) ignore))
    (omap (fun p =>
             if startsWith p (dir +:+ "/")
             then Some (String.substring (String.length dir + 1) (String.length p) p)
             else None)
          (map_to_list fs).*1).

(** Scripts with the same URL are put together. *)
Fixpoint add_script (s : ScriptCoverage) (acc : list ScriptCoverage) : list ScriptCoverage :=
  match acc with
  | [] => [s]
  | t :: acc' =>
      if String.eqb (url t) (url s)
      then {| scriptId := scriptId t; url := url t;
              functions := (functions t ++ functions s)%list |} :: acc'
      else t :: add_script s acc'
  end.

Definition merge_covs (covs : list ProcessCov) : ProcessCov :=
  {| result := foldl (fun acc s => add_script s acc) [] (List.concat (map result covs)) |}.

Definition hits (fns : list FunctionCoverage) : N :=
  foldr (fun f n => foldr (fun r m => count r + m) n (ranges f)) 0 fns.

(** The JSON values without [sources] that the examples use. *)
Inductive json := JNull | JEmptyObject.

Definition truthy (v : json) : bool :=
  match v with JNull => false | JEmptyObject => true end.

(** The converter: one record per original source when a map is given,
    else one for the file itself; with no source given the file is read,
    and a reference to a map file in it (none is there to read) makes the
    conversion fail, as does a map that has no sources. *)
Definition convert (fs : gmap string string) (path : string) (fns : list FunctionCoverage)
    (source originalSource : text) (smap : option (MapValue string unit json))
    : Result (gmap string N) :=
  match smap with
  | Some (WithSources srcs _) => Ok (list_to_map (map (fun s => (s, hits fns)) srcs))
  | Some (WithoutSources _) => Throw (LibraryError "not a source map")
  | None =>
      if text_falsy source then
        match fs !! path with
        | None => Throw (LibraryError "cannot read the file")
        | Some bytes =>
            if includes bytes "sourceMappingURL="
            then Throw (LibraryError "cannot read the map file")
            else Ok {[ path := hits fns ]}
        end
      else Ok {[ path := hits fns ]}
  end.

Definition q : string := String (ascii_of_nat 34) "".

Definition print_list {A} (f : A -> string) (l : list A) : string :=
  "[" +:+ foldr (fun a acc => f a +:+ (if string_falsy acc then "" else ",") +:+ acc) "" l +:+ "]".

Definition print_range (r : CoverageRange) : string :=
  "{" +:+ q +:+ "startOffset" +:+ q +:+ ":" +:+ pretty (startOffset r) +:+ ","
      +:+ q +:+ "endOffset" +:+ q +:+ ":" +:+ pretty (endOffset r) +:+ ","
      +:+ q +:+ "count" +:+ q +:+ ":" +:+ pretty (count r) +:+ "}".

Definition print_function (f : FunctionCoverage) : string :=
  "{" +:+ q +:+ "functionName" +:+ q +:+ ":" +:+ q +:+ functionName f +:+ q +:+ ","
      +:+ q +:+ "ranges" +:+ q +:+ ":" +:+ print_list print_range (ranges f) +:+ ","
      +:+ q +:+ "isBlockCoverage" +:+ q +:+ ":"
      +:+ (if isBlockCoverage f then "true" else "false") +:+ "}".

Definition print_script (s : ScriptCoverage) : string :=
  "{" +:+ q +:+ "scriptId" +:+ q +:+ ":" +:+ q +:+ scriptId s +:+ q +:+ ","
      +:+ q +:+ "url" +:+ q +:+ ":" +:+ q +:+ url s +:+ q +:+ ","
      +:+ q +:+ "functions" +:+ q +:+ ":" +:+ print_list print_function (functions s) +:+ "}".

Definition print_v8 (c : ProcessCov) : text :=
  utf8_decode ("{" +:+ q +:+ "result" +:+ q +:+ ":" +:+ print_list print_script (result c) +:+ "}").

Definition print_istanbul (m : gmap string N) : text :=
  utf8_decode
    ("{" +:+ foldr (fun '(k, v) acc =>
                      q +:+ k +:+ q +:+ ":" +:+ pretty v
                        +:+ (if string_falsy acc then "" else ",") +:+ acc)
                   "" (map_to_list m) +:+ "}").

(** The project: built into [/app/dist], served from port 5173. *)
Definition options : CypressV8CoverageOptions :=
  {| coverageDir := "/app/cypress-coverage";
     baseUrls := ["http://localhost:5173/"];
     srcDir := "/app/src";
     buildDir := "/app/dist";
     includeUncovered := true;
     include := ["*.tsx"; "*.ts"];
     exclude := ["*.spec.ts"];
     includeV8Patterns := ["*/assets/*.js"];
     excludeV8Patterns := ["*/__cypress/*"] |}.

Definition index_script : ScriptCoverage :=
  {| scriptId := "7";
     url := "http://localhost:5173/assets/index.js";
     functions :=
       [ {| functionName := "App";
            ranges := [ {| startOffset := 0; endOffset := 100; count := 5 |} ];
            isBlockCoverage := true |} ] |}.

(** A script served from [/assets/] that has no file in the build
    directory. *)
Definition vendor_script : ScriptCoverage :=
  {| scriptId := "8";
     url := "http://localhost:5173/assets/vendor.js";
     functions :=
       [ {| functionName := "";
            ranges := [ {| startOffset := 0; endOffset := 40; count := 1 |} ];
            isBlockCoverage := true |} ] |}.

Definition cypress_script : ScriptCoverage :=
  {| scriptId := "9";
     url := "http://localhost:5173/__cypress/runner/cypress_runner.js";
     functions := [] |}.

Definition index_report : ProcessCov := {| result := [index_script] |}.
Definition vendor_report : ProcessCov := {| result := [vendor_script; index_script] |}.

Definition index_map_text : text :=
  utf8_decode ("{" +:+ q +:+ "version" +:+ q +:+ ":3," +:+ q +:+ "sources" +:+ q +:+ ":["
                   +:+ q +:+ "../../src/App.tsx" +:+ q +:+ "]}").

Definition known_reports : list ProcessCov :=
  [ {| result := [] |}; index_report; vendor_report ].

Definition known_maps : list (gmap string N) :=
  [ ∅; {[ "/app/src/App.tsx" := 5 ]} ].

Definition libs : Libraries :=
  {| FileCoverage := N;
     fc_merge := N.add;
     SourceMapRest := unit;
     JSONValue := json;
     json_truthy := truthy;
     minimatch := fun u pattern => wildcard pattern u;
     mergeProcessCovs := merge_covs;
     fg := glob_files;
     path_resolve := resolve;
     path_resolve_from := resolve_from;
     path_join := join;
     url_pathname := pathname;
     parse_v8 := fun t => List.find (fun c => bool_decide (print_v8 c = t)) known_reports;
     stringify_v8 := print_v8;
     parse_istanbul := fun t => List.find (fun m => bool_decide (print_istanbul m = t)) known_maps;
     stringify_istanbul := print_istanbul;
     parse_sourcemap :=
       fun t => if bool_decide (t = index_map_text)
                then Some (WithSources [Some "../../src/App.tsx"] tt)
                else if bool_decide (t = utf8_decode "null") then Some (WithoutSources JNull)
                else if bool_decide (t = utf8_decode "{}") then Some (WithoutSources JEmptyObject)
                else None;
     v8ToIstanbul := convert |}.

Definition project_files : gmap string string :=
  list_to_map
    [ ("/app/dist/assets/index.js", "export const App=1;");
      ("/app/dist/assets/index.js.map", utf8_encode index_map_text);
      ("/app/src/App.tsx", "export const App = 1;");
      ("/app/src/Unused.tsx", "export const Unused = 2;") ].

Definition world_of (fs : gmap string string) (session : option Session) : World :=
  {| files := fs; dirs := {[ "/app/cypress-coverage" ]}; cdp := session; console := [] |}.

Definition raw_path : string := "/app/cypress-coverage/App.cy.ts_v8.json".
Definition canonical_path : string := "/app/cypress-coverage/App.cy.ts.json".

(** The state at the end of a spec whose tests loaded [index.js]. *)
Definition after_tests : World :=
  world_of (<[ raw_path := utf8_encode (print_v8 index_report) ]> project_files) None.

(** The same, when [vendor.js] was loaded as well. *)
Definition after_tests_vendor : World :=
  world_of (<[ raw_path := utf8_encode (print_v8 vendor_report) ]> project_files) None.

(** The state before the first test ends, with a live session. *)
Definition live (snap : ProcessCov) : World :=
  world_of project_files
    (Some {| snapshot := Ok snap; issued := []; rejects := fun _ => None |}).

(** The project with one more source file, which names a map file that
    does not exist. *)
Definition legacy_path : string := "/app/src/legacy.ts".

Definition with_legacy : World :=
  world_of (<[ legacy_path := "//# sourceMappingURL=legacy.js.map" ]> project_files) None.

(** A source tree of one file, a comment with an accented letter: five
    bytes, of which the last two encode U+00E9. *)
Definition accent_path : string := "/app/src/Accent.ts".

Definition accent_bytes : string :=
  "// " +:+ String (ascii_of_nat 195) (String (ascii_of_nat 169) "").

Definition with_accent : World := world_of {[ accent_path := accent_bytes ]} None.

(** The options resolved when nothing is configured. *)
Definition unconfigured : CypressV8CoverageOptions :=
  @resolveOptions libs {| baseUrl := None; v8CoveragePluginRegistered := false |} None.

End Demo.

(** ** The browser launch handler

    [v8CoverageBrowserHandler] and the [tryConnect] it schedules.  The
    timers set with [setTimeout] and the clients that have a [disconnect]
    listener are kept beside the world; a timer that fires, the outcome
    of [CDP(...)] and a client that disconnects are events from outside.
    What [error] prints here is kept in a console of its own. *)

(** [s.split(sep)], [sep] one character *)
Fixpoint split_from (sep : ascii) (s cur : string) : list string :=
  match s with
  | EmptyString => [cur]
  | String c s' =>
      if Ascii.eqb c sep then cur :: split_from sep s' ""
      else split_from sep s' (cur +:+ String c "")
  end.

Definition split (sep : ascii) (s : string) : list string := split_from sep s "".

Definition portPrefix : string := "--remote-debugging-port".

(** [rdpArg.split("=")[1]]: what [parseInt] is given, [None] for
    [undefined]. *)
Definition portText (rdpArg : string) : option string := split "=" rdpArg !! 1%nat.

Inductive LaunchDiagnostic :=
| NonV8Browser
| NoDebuggingPort
| ConnectFailed (err : Exn).

(** A pending [setTimeout(tryConnect, 1000)]: the port text of its
    handler call and the argument [disconnected]. *)
Record Timer := {
  timer_port : option string;
  timer_disconnected : bool
}.

Record Runtime := {
  world : World;
  launch_console : list LaunchDiagnostic;
  timers : list Timer;
  (** the clients with a [disconnect] listener, by the port text of the
      handler call that made them *)
  listeners : list (option string)
}.

Definition with_world (f : World -> World) (rt : Runtime) : Runtime :=
  {| world := f (world rt); launch_console := launch_console rt;
     timers := timers rt; listeners := listeners rt |}.

Definition launch_error (d : LaunchDiagnostic) (rt : Runtime) : Runtime :=
  {| world := world rt; launch_console := (launch_console rt ++ [d])%list;
     timers := timers rt; listeners := listeners rt |}.

Definition setTimeout (t : Timer) (rt : Runtime) : Runtime :=
  {| world := world rt; launch_console := launch_console rt;
     timers := (timers rt ++ [t])%list; listeners := listeners rt |}.

(** The handler: what it returns ([None] for [undefined]) and the
    runtime after it. *)
Definition v8CoverageBrowserHandler (browserName : string) (args : list string)
    (rt : Runtime) : option (list string) * Runtime :=
  if negb (String.eqb browserName "chrome") then (None, launch_error NonV8Browser rt)
  else
    match List.find (fun arg => startsWith arg portPrefix) args with
    | None => (None, launch_error NoDebuggingPort rt)
    | Some rdpArg =>
        (Some args,
         setTimeout {| timer_port := portText rdpArg; timer_disconnected := false |} rt)
    end.

(** [tryConnect(disconnected)] of the handler call with port text [rdp],
    given how [CDP({ port, local: true })] ends. *)
Definition tryConnect (rdp : option string) (disconnected : bool)
    (outcome : Result Session) (rt : Runtime) : Runtime :=
  match outcome with
  | Ok client =>
      {| world := with_cdp (Some client) (world rt);
         launch_console := launch_console rt;
         timers := timers rt;
         listeners := (listeners rt ++ [rdp])%list |}
  | Throw err =>
      if negb disconnected
      then setTimeout {| timer_port := rdp; timer_disconnected := false |}
             (launch_error (ConnectFailed err) rt)
      else rt
  end.

(** The listener of a client: [setTimeout(() => tryConnect(true), 1000)]. *)
Definition onDisconnect (rdp : option string) (rt : Runtime) : Runtime :=
  setTimeout {| timer_port := rdp; timer_disconnected := true |} rt.

(** The tasks Cypress can call. *)
Inductive HookCall :=
| CallBefore (testFileName : string)
| CallBeforeEach
| CallAfterEach (testFileName : string)
| CallAfter (testFileName : string).

(** What happens in the Node process: a browser is launched, the [i]-th
    pending timer fires and the connection ends as [outcome], the [j]-th
    listening client disconnects (a client does so once), the client
    held in [cdp] changes what it answers (the page ran on, the
    connection was closed), or a task is called. *)
Inductive Event :=
| Launch (browserName : string) (args : list string)
| TimerFires (i : nat) (outcome : Result Session)
| Disconnects (j : nat)
| Answers (snap : Result ProcessCov) (rej : ProfilerCommand -> option Exn)
| Task (call : HookCall).

Definition runHook {L : Libraries} (o : CypressV8CoverageOptions) (call : HookCall)
    : M TaskValue :=
  match call with
  | CallBefore testFileName => v8CoverageBefore o testFileName
  | CallBeforeEach => v8CoverageBeforeEach
  | CallAfterEach testFileName => v8CoverageAfterEach o testFileName
  | CallAfter testFileName => v8CoverageAfter o testFileName
  end.

Definition step {L : Libraries} (o : CypressV8CoverageOptions) (rt : Runtime) (ev : Event)
    : Runtime :=
  match ev with
  | Launch browserName args => (v8CoverageBrowserHandler browserName args rt).2
  | TimerFires i outcome =>
      match timers rt !! i with
      | Some t =>
          tryConnect (timer_port t) (timer_disconnected t) outcome
            {| world := world rt; launch_console := launch_console rt;
               timers := delete i (timers rt); listeners := listeners rt |}
      | None => rt
      end
  | Disconnects j =>
      match listeners rt !! j with
      | Some rdp =>
          onDisconnect rdp
            {| world := world rt; launch_console := launch_console rt;
               timers := timers rt; listeners := delete j (listeners rt) |}
      | None => rt
      end
  | Answers snap rej =>
      with_world
        (fun w =>
           match cdp w with
           | Some s =>
               with_cdp (Some {| snapshot := snap; issued := issued s; rejects := rej |}) w
           | None => w
           end) rt
  | Task call => with_world (fun w => (runHook o call w).2) rt
  end.

Definition run {L : Libraries} (o : CypressV8CoverageOptions) (events : list Event)
    (rt : Runtime) : Runtime :=
  foldl (step o) rt events.

Definition launches (events : list Event) : nat :=
  List.length (List.filter (fun ev => match ev with Launch _ _ => true | _ => false end) events).

(** The process as [register] leaves it. *)
Definition started (w : World) : Runtime :=
  {| world := w; launch_console := []; timers := []; listeners := [] |}.

(** ** A serialization that can be read back

    The raw artifact written as the binary digits of the code of the
    report, with its parser: a stand-in for [JSON.stringify] and
    [JSON.parse] that is exact on every report. *)
Module Binary.

Definition range_code (r : CoverageRange) : N * N * N :=
  (startOffset r, endOffset r, count r).

Definition function_code (f : FunctionCoverage) : string * list (N * N * N) * bool :=
  (functionName f, map range_code (ranges f), isBlockCoverage f).

Definition script_code (s : ScriptCoverage)
    : string * string * list (string * list (N * N * N) * bool) :=
  (scriptId s, url s, map function_code (functions s)).

Definition report_code (c : ProcessCov)
    : list (string * string * list (string * list (N * N * N) * bool)) :=
  map script_code (result c).

Definition range_of (c : N * N * N) : CoverageRange :=
  {| startOffset := c.1.1; endOffset := c.1.2; count := c.2 |}.

Definition function_of (c : string * list (N * N * N) * bool) : FunctionCoverage :=
  {| functionName := c.1.1; ranges := map range_of c.1.2; isBlockCoverage := c.2 |}.

Definition script_of (c : string * string * list (string * list (N * N * N) * bool))
    : ScriptCoverage :=
  {| scriptId := c.1.1; url := c.1.2; functions := map function_of c.2 |}.

Definition report_of (c : list (string * string * list (string * list (N * N * N) * bool)))
    : ProcessCov :=
  {| result := map script_of c |}.

(** The digits of a positive number, lowest first, as the characters
    [0] and [1]. *)
Fixpoint digits (p : positive) : text :=
  match p with
  | xH => []
  | xO p' => 48 :: digits p'
  | xI p' => 49 :: digits p'
  end.

Fixpoint of_digits (t : text) : option positive :=
  match t with
  | [] => Some xH
  | d :: t' =>
      match of_digits t' with
      | Some p => if d =? 48 then Some (xO p) else if d =? 49 then Some (xI p) else None
      | None => None
      end
  end.

Definition print (c : ProcessCov) : text := digits (encode (report_code c)).

Definition parse (t : text) : option ProcessCov :=
  match of_digits t with
  | Some p => option_map report_of (decode p)
  | None => None
  end.

Definition libs : Libraries :=
  {| FileCoverage := N;
     fc_merge := N.add;
     SourceMapRest := unit;
     JSONValue := Demo.json;
     json_truthy := Demo.truthy;
     minimatch := fun u pattern => Demo.wildcard pattern u;
     mergeProcessCovs := Demo.merge_covs;
     fg := Demo.glob_files;
     path_resolve := Demo.resolve;
     path_resolve_from := Demo.resolve_from;
     path_join := Demo.join;
     url_pathname := Demo.pathname;
     parse_v8 := parse;
     stringify_v8 := print;
     parse_istanbul := @parse_istanbul Demo.libs;
     stringify_istanbul := Demo.print_istanbul;
     parse_sourcemap := @parse_sourcemap Demo.libs;
     v8ToIstanbul := Demo.convert |}.

End Binary.

(** ** More states of the example project *)
Module Cases.

(** A script whose built file is empty. *)
Definition empty_script : ScriptCoverage :=
  {| scriptId := "10";
     url := "http://localhost:5173/assets/empty.js";
     functions := [] |}.

Definition with_empty_built : World :=
  Demo.world_of (<[ "/app/dist/assets/empty.js" := "" ]> Demo.project_files) None.

(** A session that answers the capture and then rejects
    [stopPreciseCoverage]. *)
Definition closing : World :=
  Demo.world_of Demo.project_files
    (Some {| snapshot := Ok Demo.index_report; issued := [];
             rejects := fun cmd =>
               match cmd with
               | StopPreciseCoverage => Some (LibraryError "WebSocket is not open")
               | _ => None
               end |}).

(** The project with a map file that holds the JSON value [null]. *)
Definition with_null_map : World :=
  Demo.world_of (<[ "/app/dist/assets/index.js.map" := "null" ]> Demo.project_files) None.

(** The project with the canonical artifact of an earlier run of the
    spec. *)
Definition with_old_canonical : World :=
  Demo.world_of
    (<[ Demo.canonical_path := utf8_encode (Demo.print_istanbul {[ "/app/src/App.tsx" := 5 ]}) ]>
       Demo.project_files) None.

(** The project with nothing left of an earlier run. *)
Definition clean : World := Demo.world_of Demo.project_files None.

(** A listing of the sources that names a file which is gone. *)
Definition stale_libs : Libraries :=
  {| FileCoverage := N;
     fc_merge := N.add;
     SourceMapRest := unit;
     JSONValue := Demo.json;
     json_truthy := Demo.truthy;
     minimatch := fun u pattern => Demo.wildcard pattern u;
     mergeProcessCovs := Demo.merge_covs;
     fg := fun _ _ _ _ => ["Gone.ts"];
     path_resolve := Demo.resolve;
     path_resolve_from := Demo.resolve_from;
     path_join := Demo.join;
     url_pathname := Demo.pathname;
     parse_v8 := @parse_v8 Demo.libs;
     stringify_v8 := Demo.print_v8;
     parse_istanbul := @parse_istanbul Demo.libs;
     stringify_istanbul := Demo.print_istanbul;
     parse_sourcemap := @parse_sourcemap Demo.libs;
     v8ToIstanbul := Demo.convert |}.

(** The options of the project with a second origin. *)
Definition two_origins : CypressV8CoverageOptions :=
  {| coverageDir := coverageDir Demo.options;
     baseUrls := ["http://localhost:5173/"; "http://127.0.0.1:5173/"];
     srcDir := srcDir Demo.options;
     buildDir := buildDir Demo.options;
     includeUncovered := includeUncovered Demo.options;
     include := include Demo.options;
     exclude := exclude Demo.options;
     includeV8Patterns := includeV8Patterns Demo.options;
     excludeV8Patterns := [] |}.

Definition capture : ProcessCov :=
  {| result := [Demo.cypress_script; Demo.index_script] |}.

(** A process that is connected, and what may follow: the client
    disconnects and rejects every command from then on, the reconnection
    fails, a spec runs. *)
Definition connected : Runtime :=
  {| world := Demo.live capture; launch_console := []; timers := [];
     listeners := [Some "50052"] |}.

Definition events : list Event :=
  [ Disconnects 0;
    Answers (Throw (LibraryError "WebSocket is not open"))
            (fun _ => Some (LibraryError "WebSocket is not open"));
    TimerFires 0 (Throw (LibraryError "ECONNREFUSED"));
    Task (CallBefore "App.cy.ts");
    Task CallBeforeEach ].

End Cases.

(** ** Vocabulary of the statements *)

(** The world after [msgs] were printed. *)
Definition printed (msgs : list Diagnostic) (w : World) : World :=
  {| files := files w; dirs := dirs w; cdp := cdp w; console := (console w ++ msgs)%list |}.

(** What a hook takes as the previous content of a JSON artifact: the
    parsed file, or [empty] when there is no file. *)
Definition priorArtifact {A} (parse : text -> option A) (empty : A)
    (fs : gmap string string) (p : string) (prev : A) : Prop :=
  match fs !! p with
  | Some bytes => parse (utf8_decode bytes) = Some prev
  | None => prev = empty
  end.

(** A computation that only reads files and prints: run in two worlds
    with the same files, it has the same outcome and prints the same. *)
Definition reads_and_prints {A} (m : M A) : Prop :=
  ∀ w1 w2, files w1 = files w2 →
    ∃ r msgs, m w1 = (r, printed msgs w1) ∧ m w2 = (r, printed msgs w2).

(** A computation in which the session plays no part. *)
Definition session_blind {A} (m : M A) : Prop :=
  ∀ c w, m (with_cdp c w) = ((m w).1, with_cdp c (m w).2).

(** A file whose bytes are all ASCII. *)
Fixpoint ascii_only (bytes : string) : bool :=
  match bytes with
  | EmptyString => true
  | String a rest => (N_of_ascii a <=? 0x7F) && ascii_only rest
  end.

(** A record that marks the whole of [file] as never run: one function
    named [(empty-report)], flagged as block coverage, with one range from
    0 to [len] and no hit. *)
Definition whole_file_record (file : string) (len : N) (script : ScriptCoverage) : Prop :=
  url script = file ∧
  functions script =
    [ {| functionName := "(empty-report)";
         ranges := [ {| startOffset := 0; endOffset := len; count := 0 |} ];
         isBlockCoverage := true |} ].

(** The record the synthesizer makes up for [file] from the files. *)
Definition synthesized (fs : gmap string string) (file : string) : ScriptCoverage :=
  emptyReport file (utf8_decode (default "" (fs !! file))).

(** The maps obtained from [existing] by merging converted coverage into
    it, one conversion after the other. *)
Definition merged_from {L : Libraries} (existing m : CoverageMap) : Prop :=
  ∃ converted, m = foldl cm_merge existing converted.

(** The support file calls the task [v8CoverageAfterEach] after each test
    of a spec.  [tests_end] is the world after the tests whose captures
    are given, in order, each answered by a live session. *)
Definition test_ends {L : Libraries} (o : CypressV8CoverageOptions) (specFileName : string)
    (w : World) (capture : ProcessCov) : World :=
  (v8CoverageAfterEach o specFileName
     (with_cdp (Some {| snapshot := Ok capture; issued := [];
                        rejects := fun _ => None |}) w)).2.

Definition tests_end {L : Libraries} (o : CypressV8CoverageOptions) (specFileName : string)
    (captures : list ProcessCov) (w : World) : World :=
  foldl (test_ends o specFileName) w captures.

(** The URLs of a report. *)
Definition urls (cov : ProcessCov) : list string := map url (result cov).

(** One when the decoder is inside a sequence, else zero. *)
Definition pending (st : utf8_state) : N := if u_needed st =? 0 then 0 else 1.

(** A Unicode scalar value: a code point that is not a surrogate. *)
Definition valid_scalar (cp : N) : Prop :=
  cp < 0xD800 ∨ (0xDFFF < cp ∧ cp < 0x110000).

(** What a hook that ends by sending [cmds] to the session [s] returns:
    the replies, or the rejection of the client. *)
Definition replies (s : Session) (cmds : list ProfilerCommand) : Result TaskValue :=
  match rejection s cmds with
  | Some e => Throw e
  | None => Ok (Replies cmds)
  end.

(** A map that the converter returned in [generateCoverage coverage],
    run in the world [w]: for a script of [coverage], converted with the
    bundle that [getSources] gives for its built file, or for a script of
    the merged made-up records of the files not in [testedFiles],
    converted with no source given. *)
Definition converted_for {L : Libraries} (o : CypressV8CoverageOptions) (w : World)
    (coverage : ProcessCov) (c : CoverageMap) : Prop :=
  (∃ script jsFileName bundle,
     script ∈ result coverage ∧
     url_pathname (url script) = Some jsFileName ∧
     (getSources o (path_resolve (buildDir o +:+ jsFileName)) w).1 = Ok bundle ∧
     v8ToIstanbul (files w) (path_resolve (buildDir o +:+ jsFileName)) (functions script)
       (source bundle) (originalSource bundle) (sourceMap bundle) = Ok c) ∨
  (∃ testedFiles script,
     script ∈ result (mergeProcessCovs
                        ({| result := [] |} ::
                         map (fun f => {| result := [synthesized (files w) f] |})
                             (untestedFiles o testedFiles (files w)))) ∧
     v8ToIstanbul (files w) (url script) (functions script) [] [] None = Ok c).

(** The report that the tests of a spec leave in the raw artifact: each
    capture, filtered, merged into what the earlier tests left. *)
Definition accumulate {L : Libraries} (o : CypressV8CoverageOptions)
    (prev : ProcessCov) (captures : list ProcessCov) : ProcessCov :=
  foldl (fun acc capture =>
           mergeProcessCovs
             [acc; {| result := List.filter (filterV8CoverageResult o) (result capture) |}])
        prev captures.

(** * Properties *)

(** ** Strings *)

Lemma append_cons (a : ascii) (s t : string) : String a s +:+ t = String a (s +:+ t).
Proof. reflexivity. Qed.

Lemma startsWith_spec (s p : string) :
  startsWith s p = true ↔ ∃ rest, s = p +:+ rest.
Proof.
  revert s. induction p as [|c p IH]; intros s; simpl.
  - split; [intros _; by exists s | done].
  - destruct s as [|d s]; simpl.
    + split; [done | intros [rest Hrest]; discriminate].
    + destruct (Ascii.eqb_spec c d) as [->|Hne].
      * rewrite IH. split; intros [rest Hrest]; exists rest;
          rewrite append_cons in *; congruence.
      * split; [done | intros [rest Hrest]; rewrite append_cons in *; congruence].
Qed.

Lemma includes_spec (s p : string) :
  includes s p = true ↔ ∃ pre post, s = pre +:+ p +:+ post.
Proof.
  induction s as [|a s IH].
  - cbn [includes]. rewrite orb_false_r, startsWith_spec. split.
    + intros [rest Hrest]. by exists "", rest.
    + intros [pre [post Heq]]. destruct pre; [by exists post | discriminate].
  - cbn [includes]. rewrite orb_true_iff, startsWith_spec, IH. split.
    + intros [[rest Hrest] | [pre [post Heq]]].
      * by exists "", rest.
      * exists (String a pre), post. rewrite append_cons. by rewrite Heq.
    + intros [pre [post Heq]]. destruct pre as [|a' pre].
      * left. by exists post.
      * right. exists pre, post. rewrite append_cons in Heq. congruence.
Qed.

Lemma existsb_elem_of {A} (f : A → bool) (l : list A) :
  existsb f l = true ↔ ∃ x, x ∈ l ∧ f x = true.
Proof.
  rewrite existsb_exists. split; intros [x [Hx Hf]]; exists x; split; try done;
    by apply list_elem_of_In.
Qed.

Lemma existsb_false_elem_of {A} (f : A → bool) (l : list A) :
  existsb f l = false ↔ ∀ x, x ∈ l → f x = false.
Proof.
  rewrite <- not_true_iff_false, existsb_elem_of. split.
  - intros Hno x Hx. apply not_true_iff_false. intros Hf. apply Hno. eauto.
  - intros Hall [x [Hx Hf]]. specialize (Hall x Hx). congruence.
Qed.

(** ** The script filter *)

(** C5: the filter accepts a script exactly when its URL starts with one
    of the base URLs, does not contain [/node_modules/], matches one of
    the include patterns and matches none of the exclude patterns; a
    script whose URL starts with no base URL is rejected, whatever its
    functions are. *)
Theorem filterV8CoverageResult_accepts_iff {L : Libraries}
    (o : CypressV8CoverageOptions) (c : ScriptCoverage) :
  (filterV8CoverageResult o c = true ↔
     (∃ b, b ∈ baseUrls o ∧ ∃ rest, url c = b +:+ rest) ∧
     ¬ (∃ pre post, url c = pre +:+ "/node_modules/" +:+ post) ∧
     (∃ p, p ∈ includeV8Patterns o ∧ minimatch (url c) p = true) ∧
     (∀ p, p ∈ excludeV8Patterns o → minimatch (url c) p = false))
  ∧ ((∀ b, b ∈ baseUrls o → ¬ ∃ rest, url c = b +:+ rest) →
     filterV8CoverageResult o c = false).
Proof.
  assert (Hbase : existsb (λ u, startsWith (url c) u) (baseUrls o) = true ↔
                  ∃ b, b ∈ baseUrls o ∧ ∃ rest, url c = b +:+ rest).
  { rewrite existsb_elem_of. split; intros [b [Hb Hs]]; exists b; split; try done;
      by apply startsWith_spec. }
  unfold filterV8CoverageResult. split.
  - destruct (existsb (λ u, startsWith (url c) u) (baseUrls o)) eqn:Eb; simpl.
    2: { split; [done | intros [Hb _]]. apply Hbase in Hb. congruence. }
    destruct (includes (url c) "/node_modules/") eqn:Ei.
    { split; [done | intros (_ & Hn & _)]. destruct Hn. by apply includes_spec. }
    rewrite andb_true_iff, negb_true_iff, existsb_elem_of, existsb_false_elem_of.
    split.
    + intros [Hinc Hexc]. repeat split; try done.
      * by apply Hbase.
      * intros Hn. apply includes_spec in Hn. congruence.
    + intros (_ & _ & Hinc & Hexc). done.
  - intros Hnone.
    destruct (existsb (λ u, startsWith (url c) u) (baseUrls o)) eqn:Eb; simpl; [|done].
    destruct Hbase as [Hb _]. destruct (Hb eq_refl) as [b [Hin Hrest]].
    by destruct (Hnone b Hin).
Qed.

(** ** The hooks that do not convert *)

Lemma existsSync_eq (p : string) (w : World) :
  existsSync p w = (Ok (match files w !! p with Some _ => true | None => false end), w).
Proof. unfold existsSync. by destruct (files w !! p). Qed.

Lemma unlink_guarded (p : string) (w : World) :
  (if match files w !! p with Some _ => true | None => false end
   then unlinkSync p else ret tt) w = (Ok tt, with_files (delete p) w).
Proof.
  destruct (files w !! p) eqn:E.
  - unfold unlinkSync. by rewrite E.
  - unfold ret. f_equal. destruct w; unfold with_files; simpl in *.
    by rewrite delete_id.
Qed.

(** C9: whatever the files were, the before-hook returns [null] and
    leaves a file system in which neither the raw nor the canonical
    artifact of the spec exists; no other file is touched. *)
Theorem v8CoverageBefore_purges {L : Libraries}
    (o : CypressV8CoverageOptions) (testFileName : string) (w : World) :
  ∃ w',
    v8CoverageBefore o testFileName w = (Ok Null, w') ∧
    files w' !! rawArtifact o testFileName = None ∧
    files w' !! canonicalArtifact o testFileName = None ∧
    (∀ p, p ≠ rawArtifact o testFileName → p ≠ canonicalArtifact o testFileName →
          files w' !! p = files w !! p).
Proof.
  set (raw := rawArtifact o testFileName).
  set (canon := canonicalArtifact o testFileName).
  exists (with_files (λ fs, delete canon (delete raw fs)) w).
  split.
  - unfold v8CoverageBefore, bind. fold raw canon.
    rewrite existsSync_eq, unlink_guarded, existsSync_eq, unlink_guarded.
    reflexivity.
  - simpl. repeat split.
    + destruct (decide (raw = canon)) as [<-|Hne].
      * apply lookup_delete_eq.
      * rewrite lookup_delete_ne by done. apply lookup_delete_eq.
    + apply lookup_delete_eq.
    + intros p Hp1 Hp2. by rewrite !lookup_delete_ne.
Qed.

(** ** Computations that only read files and print *)

Lemma printed_nil (w : World) : printed [] w = w.
Proof. destruct w. unfold printed. simpl. by rewrite app_nil_r. Qed.

Lemma printed_app (l1 l2 : list Diagnostic) (w : World) :
  printed l2 (printed l1 w) = printed (l1 ++ l2) w.
Proof. unfold printed. simpl. by rewrite app_assoc. Qed.

Section ReadsAndPrints.
Context {A B : Type}.

Lemma rp_ret (a : A) : reads_and_prints (ret a).
Proof. intros w1 w2 _. exists (Ok a), []. by rewrite !printed_nil. Qed.

Lemma rp_throw (e : Exn) : reads_and_prints (@throw A e).
Proof. intros w1 w2 _. exists (Throw e), []. by rewrite !printed_nil. Qed.

Lemma rp_bind (m : M A) (k : A → M B) :
  reads_and_prints m → (∀ a, reads_and_prints (k a)) → reads_and_prints (bind m k).
Proof.
  intros Hm Hk w1 w2 Hfs. unfold bind.
  destruct (Hm w1 w2 Hfs) as (r & msgs & -> & ->). destruct r as [a|e].
  - destruct (Hk a (printed msgs w1) (printed msgs w2) Hfs) as (r' & msgs' & -> & ->).
    exists r', (msgs ++ msgs')%list. by rewrite !printed_app.
  - by exists (Throw e), msgs.
Qed.

Lemma rp_try_catch (m : M A) (h : Exn → M A) :
  reads_and_prints m → (∀ e, reads_and_prints (h e)) → reads_and_prints (try_catch m h).
Proof.
  intros Hm Hh w1 w2 Hfs. unfold try_catch.
  destruct (Hm w1 w2 Hfs) as (r & msgs & -> & ->). destruct r as [a|e].
  - by exists (Ok a), msgs.
  - destruct (Hh e (printed msgs w1) (printed msgs w2) Hfs) as (r' & msgs' & -> & ->).
    exists r', (msgs ++ msgs')%list. by rewrite !printed_app.
Qed.

Lemma rp_with_files (g : gmap string string → M A) :
  (∀ fs, reads_and_prints (g fs)) → reads_and_prints (λ w, g (files w) w).
Proof. intros Hg w1 w2 Hfs. rewrite Hfs. by apply Hg. Qed.

End ReadsAndPrints.

Lemma rp_foldM {A B} (f : B → A → M A) (l : list B) (acc : A) :
  (∀ x a, reads_and_prints (f x a)) → reads_and_prints (foldM f l acc).
Proof.
  intros Hf. revert acc. induction l as [|x l IH]; intros acc; simpl.
  - apply rp_ret.
  - apply rp_bind; [apply Hf | apply IH].
Qed.

Lemma rp_mapM {A B} (f : A → M B) (l : list A) :
  (∀ x, reads_and_prints (f x)) → reads_and_prints (mapM f l).
Proof.
  intros Hf. induction l as [|x l IH]; simpl.
  - apply rp_ret.
  - apply rp_bind; [apply Hf | intros y].
    apply rp_bind; [apply IH | intros ys; apply rp_ret].
Qed.

Lemma rp_readFile (p : string) : reads_and_prints (readFile p).
Proof.
  intros w1 w2 Hfs. unfold readFile. rewrite Hfs.
  destruct (files w2 !! p) as [bytes|].
  - exists (Ok (utf8_decode bytes)), []. by rewrite !printed_nil.
  - exists (Throw (ENOENT p)), []. by rewrite !printed_nil.
Qed.

Lemma rp_error (d : Diagnostic) : reads_and_prints (error d).
Proof. intros w1 w2 _. by exists (Ok tt), [d]. Qed.

Ltac rp_step :=
  first
    [ apply rp_ret | apply rp_throw | apply rp_readFile | apply rp_error
    | apply rp_bind; [|intros ?] | apply rp_try_catch; [|intros ?]
    | apply rp_foldM; intros ? ? | apply rp_mapM; intros ? ].

Section TaskReads.
Context {L : Libraries} (o : CypressV8CoverageOptions).

Lemma rp_getSources (filePath : string) : reads_and_prints (getSources o filePath).
Proof.
  unfold getSources. apply rp_bind.
  - apply rp_try_catch; [|intros e; repeat rp_step].
    apply rp_bind; [apply rp_readFile | intros mapFile].
    destruct (parse_sourcemap mapFile); rp_step.
  - intros parsed. apply rp_bind; [|intros smap; repeat rp_step].
    destruct parsed as [[srcs rest|v]|]; repeat rp_step.
Qed.

Lemma rp_convertCoverage (filePath : string) (fns : list FunctionCoverage)
    (bundle : V8ToIstanbulSources) :
  reads_and_prints (convertCoverage filePath fns bundle).
Proof.
  unfold convertCoverage. rp_step; [|repeat rp_step].
  apply (rp_with_files (λ fs w, match v8ToIstanbul fs filePath fns _ _ _ with
                                | Ok c => (Ok (Some c), w)
                                | Throw e => (Throw e, w)
                                end)).
  intros fs. destruct (v8ToIstanbul _ _ _ _ _ _); [apply rp_ret | apply rp_throw].
Qed.

Lemma rp_convertScript (script : ScriptCoverage) (coverageMap : CoverageMap) :
  reads_and_prints (convertScript o script coverageMap).
Proof.
  unfold convertScript. destruct (url_pathname _); [|rp_step].
  rp_step; [apply rp_getSources|]. destruct (text_falsy _); [rp_step|].
  apply rp_bind; [apply rp_convertCoverage | intros [c|]; rp_step].
Qed.

Lemma rp_convertUntested (script : ScriptCoverage) (coverageMap : CoverageMap) :
  reads_and_prints (convertUntested script coverageMap).
Proof.
  unfold convertUntested.
  apply rp_bind; [apply rp_convertCoverage | intros [c|]; rp_step].
Qed.

Lemma rp_getUntestedFileCoverage (testedFiles : list string) :
  reads_and_prints (getUntestedFileCoverage o testedFiles).
Proof.
  unfold getUntestedFileCoverage. rp_step; [|rp_step].
  unfold untestedReports.
  apply (rp_with_files (λ fs, mapM _ (untestedFiles o testedFiles fs))).
  intros fs. repeat rp_step.
Qed.

Lemma rp_generateCoverage (coverage : ProcessCov) (existing : CoverageMap) :
  reads_and_prints (generateCoverage o coverage existing).
Proof.
  unfold generateCoverage. rp_step.
  - rp_step. apply rp_convertScript.
  - destruct (includeUncovered o); [|rp_step].
    rp_step; [apply rp_getUntestedFileCoverage|]. rp_step. apply rp_convertUntested.
Qed.

End TaskReads.

(** What a reading computation does to the world it is run in. *)
Lemma rp_run {A} (m : M A) (w : World) :
  reads_and_prints m → ∃ r msgs, m w = (r, printed msgs w).
Proof. intros Hm. destruct (Hm w w eq_refl) as (r & msgs & Hr & _). eauto. Qed.

Lemma rp_files {A} (m : M A) (w w' : World) (r : Result A) :
  reads_and_prints m → m w = (r, w') → files w' = files w.
Proof.
  intros Hm Hrun. destruct (rp_run m w Hm) as (r' & msgs & Hr).
  rewrite Hrun in Hr. by injection Hr as -> ->.
Qed.

(** The session plays no part in a reading computation. *)
Lemma rp_session_blind {A} (m : M A) : reads_and_prints m → session_blind m.
Proof.
  intros Hm c w. destruct (Hm w (with_cdp c w) eq_refl) as (r & msgs & -> & ->).
  reflexivity.
Qed.

Lemma sb_bind {A B} (m : M A) (k : A → M B) :
  session_blind m → (∀ a, session_blind (k a)) → session_blind (bind m k).
Proof.
  intros Hm Hk c w. unfold bind. rewrite Hm. destruct (m w) as [[a|e] w1]; simpl.
  - apply Hk.
  - reflexivity.
Qed.

Lemma sb_existsSync (p : string) : session_blind (existsSync p).
Proof. intros c w. reflexivity. Qed.

Lemma sb_writeFileSync (p : string) (data : text) : session_blind (writeFileSync p data).
Proof. intros c w. reflexivity. Qed.

Lemma sb_unlinkSync (p : string) : session_blind (unlinkSync p).
Proof. intros c w. unfold unlinkSync. simpl. by destruct (files w !! p). Qed.

Lemma rp_readJSON {A} (parse : text → option A) (p : string) :
  reads_and_prints (readJSON parse p).
Proof.
  unfold readJSON. apply rp_bind; [apply rp_readFile | intros data].
  destruct (parse data); [apply rp_ret | apply rp_throw].
Qed.

Lemma readJSON_eq {A} (parse : text → option A) (p bytes : string) (a : A) (w : World) :
  files w !! p = Some bytes → parse (utf8_decode bytes) = Some a →
  readJSON parse p w = (Ok a, w).
Proof.
  intros Hfile Hparse. unfold readJSON, bind, readFile. by rewrite Hfile, Hparse.
Qed.

(** [v8CoverageAfter] never looks at the session. *)
Lemma v8CoverageAfter_session_blind {L : Libraries} (o : CypressV8CoverageOptions)
    (testFileName : string) :
  session_blind (v8CoverageAfter o testFileName).
Proof.
  unfold v8CoverageAfter.
  apply sb_bind; [apply sb_existsSync | intros present].
  destruct present; simpl; [|apply rp_session_blind, rp_ret].
  apply sb_bind; [apply rp_session_blind, rp_readJSON | intros v8Coverage].
  apply sb_bind; [apply sb_existsSync | intros present].
  apply sb_bind.
  { destruct present; apply rp_session_blind; [apply rp_readJSON | apply rp_ret]. }
  intros existing.
  apply sb_bind; [apply rp_session_blind, rp_generateCoverage | intros m].
  apply sb_bind; [apply sb_writeFileSync | intros _].
  apply sb_bind; [apply sb_unlinkSync | intros _].
  apply rp_session_blind, rp_ret.
Qed.

(** What the after-hook does with a raw artifact that parses, when the
    conversion returns. *)
Lemma v8CoverageAfter_run {L : Libraries} (o : CypressV8CoverageOptions)
    (testFileName : string) (w w1 : World) (bytes : string) (v8Coverage : ProcessCov)
    (existing m : CoverageMap) :
  files w !! rawArtifact o testFileName = Some bytes →
  parse_v8 (utf8_decode bytes) = Some v8Coverage →
  priorArtifact parse_istanbul ∅ (files w) (canonicalArtifact o testFileName) existing →
  generateCoverage o v8Coverage existing w = (Ok m, w1) →
  ∃ w', v8CoverageAfter o testFileName w = (Ok Null, w') ∧
        files w' = delete (rawArtifact o testFileName)
                     (<[canonicalArtifact o testFileName
                          := utf8_encode (stringify_istanbul m)]> (files w)) ∧
        cdp w' = cdp w.
Proof.
  set (raw := rawArtifact o testFileName).
  set (canon := canonicalArtifact o testFileName).
  intros Hraw Hparse Hprev Hgen.
  destruct (rp_run _ w (rp_generateCoverage o v8Coverage existing)) as (r & msgs & Hgen').
  rewrite Hgen in Hgen'. injection Hgen' as <- ->.
  unfold v8CoverageAfter. fold raw canon.
  unfold bind at 1. rewrite existsSync_eq, Hraw. cbn [negb].
  unfold bind at 1. rewrite (readJSON_eq parse_v8 raw bytes v8Coverage) by done.
  unfold bind at 1. rewrite existsSync_eq.
  assert (Hread :
    (if match files w !! canon with Some _ => true | None => false end
     then readJSON parse_istanbul canon else ret ∅) w = (Ok existing, w)).
  { unfold priorArtifact in Hprev. fold canon in Hprev.
    destruct (files w !! canon) as [old|] eqn:E.
    - by apply readJSON_eq with old.
    - unfold ret. by rewrite Hprev. }
  unfold bind at 1. rewrite Hread. unfold bind at 1. rewrite Hgen.
  unfold bind, writeFileSync, unlinkSync. cbn [files with_files printed].
  assert (Hthere : is_Some (<[canon:=utf8_encode (stringify_istanbul m)]> (files w) !! raw)).
  { destruct (decide (canon = raw)) as [Heq|Hne].
    - rewrite Heq, lookup_insert_eq. by eexists.
    - rewrite lookup_insert_ne, Hraw by done. by eexists. }
  destruct Hthere as [data ->]. eexists. split; [reflexivity|]. done.
Qed.


(** ** Accumulating raw coverage *)

(** What [afterEach] does when a session is there and answers the
    capture: the artifact is written whether or not the client then
    accepts [stopPreciseCoverage]. *)
Lemma v8CoverageAfterEach_run {L : Libraries} (o : CypressV8CoverageOptions)
    (testFileName : string) (w : World) (s : Session) (raw prev : ProcessCov) :
  cdp w = Some s →
  snapshot s = Ok raw →
  priorArtifact parse_v8 {| result := [] |} (files w) (rawArtifact o testFileName) prev →
  ∃ w',
    v8CoverageAfterEach o testFileName w = (replies s [StopPreciseCoverage], w') ∧
    files w' =
      <[ rawArtifact o testFileName :=
           utf8_encode
             (stringify_v8
                (mergeProcessCovs
                   [prev; {| result := List.filter (filterV8CoverageResult o) (result raw) |}])) ]>
        (files w) ∧
    console w' = console w.
Proof.
  intros Hcdp Hsnap Hprev. unfold v8CoverageAfterEach. rewrite Hcdp.
  unfold bind at 1. unfold takePreciseCoverage. rewrite Hcdp, Hsnap.
  unfold bind at 1. unfold existsSync_dir.
  set (w1 := with_cdp _ w).
  assert (Hdir : ∃ w2,
    (if bool_decide (coverageDir o ∈ dirs w1) then ret tt else mkdirSync (coverageDir o)) w1
      = (Ok tt, w2) ∧ files w2 = files w ∧ console w2 = console w ∧ cdp w2 = cdp w1).
  { destruct (bool_decide _); eexists; (split; [reflexivity | done]). }
  destruct Hdir as (w2 & Hrun & Hfiles & Hconsole & Hcdp2).
  unfold bind at 1. rewrite Hrun.
  unfold bind at 1. rewrite existsSync_eq, Hfiles.
  unfold priorArtifact in Hprev. unfold bind at 1.
  assert (Hread :
    (if match files w !! rawArtifact o testFileName with Some _ => true | None => false end
     then readJSON parse_v8 (rawArtifact o testFileName) else ret {| result := [] |}) w2
      = (Ok prev, w2)).
  { destruct (files w !! rawArtifact o testFileName) as [bytes|] eqn:E.
    - apply readJSON_eq with bytes; [by rewrite Hfiles | done].
    - unfold ret. by rewrite Hprev. }
  rewrite Hread. unfold bind, writeFileSync, send. simpl cdp. rewrite Hcdp2.
  unfold replies, rejection. simpl.
  destruct (rejects s StopPreciseCoverage);
    (eexists; split; [reflexivity|]; simpl; by rewrite Hfiles, Hconsole).
Qed.

(** C4: with a session that answers, [afterEach] takes the previous raw
    artifact (the empty report when there is none), merges it with the
    filtered capture through [mergeProcessCovs] and writes the result
    back; as [mergeProcessCovs] keeps every script URL of its inputs, no
    URL recorded by an earlier test and none accepted from this capture
    is missing from what is written.  The hook returns the reply to
    [stopPreciseCoverage]; when the client rejects that command the hook
    fails, after the artifact has been written. *)
Theorem v8CoverageAfterEach_accumulates {L : Libraries} (o : CypressV8CoverageOptions)
    (testFileName : string) (w : World) (s : Session) (raw prev : ProcessCov) :
  (∀ covs cov script, cov ∈ covs → script ∈ result cov →
     ∃ script', script' ∈ result (mergeProcessCovs covs) ∧ url script' = url script) →
  cdp w = Some s →
  snapshot s = Ok raw →
  priorArtifact parse_v8 {| result := [] |} (files w) (rawArtifact o testFileName) prev →
  ∃ w' merged,
    v8CoverageAfterEach o testFileName w = (replies s [StopPreciseCoverage], w') ∧
    (rejects s StopPreciseCoverage = None →
     v8CoverageAfterEach o testFileName w = (Ok (Replies [StopPreciseCoverage]), w')) ∧
    merged =
      mergeProcessCovs
        [prev; {| result := List.filter (filterV8CoverageResult o) (result raw) |}] ∧
    files w' !! rawArtifact o testFileName = Some (utf8_encode (stringify_v8 merged)) ∧
    (∀ p, p ≠ rawArtifact o testFileName → files w' !! p = files w !! p) ∧
    (∀ script, script ∈ result prev →
       ∃ script', script' ∈ result merged ∧ url script' = url script) ∧
    (∀ script, script ∈ result raw → filterV8CoverageResult o script = true →
       ∃ script', script' ∈ result merged ∧ url script' = url script).
Proof.
  intros Hmerge Hcdp Hsnap Hprev.
  destruct (v8CoverageAfterEach_run o testFileName w s raw prev Hcdp Hsnap Hprev)
    as (w' & Hrun & Hfiles & _).
  exists w', (mergeProcessCovs
                [prev; {| result := List.filter (filterV8CoverageResult o) (result raw) |}]).
  repeat split; try done.
  - intros Haccepts. rewrite Hrun. unfold replies, rejection. cbn. by rewrite Haccepts.
  - rewrite Hfiles. apply lookup_insert_eq.
  - intros p Hp. rewrite Hfiles. by apply lookup_insert_ne.
  - intros script Hin. apply (Hmerge _ prev); [set_solver | done].
  - intros script Hin Hkeep.
    apply (Hmerge _ {| result := List.filter (filterV8CoverageResult o) (result raw) |});
      [set_solver |].
    simpl. apply list_elem_of_In, filter_In. split; [by apply list_elem_of_In | done].
Qed.

(** Over the tests of a spec: when the raw artifact reads back as it was
    written, it holds at the end the URL of every script it held at the
    start and of every script accepted from any capture. *)
Lemma raw_artifact_accumulates_over_tests {L : Libraries} (o : CypressV8CoverageOptions)
    (specFileName : string) (captures : list ProcessCov) :
  (∀ covs cov script, cov ∈ covs → script ∈ result cov →
     ∃ script', script' ∈ result (mergeProcessCovs covs) ∧ url script' = url script) →
  (∀ cov, parse_v8 (utf8_decode (utf8_encode (stringify_v8 cov))) = Some cov) →
  ∀ w prev,
    priorArtifact parse_v8 {| result := [] |} (files w) (rawArtifact o specFileName) prev →
    ∃ final,
      priorArtifact parse_v8 {| result := [] |}
        (files (tests_end o specFileName captures w)) (rawArtifact o specFileName) final ∧
      (∀ u, u ∈ urls prev → u ∈ urls final) ∧
      (∀ capture script, capture ∈ captures → script ∈ result capture →
         filterV8CoverageResult o script = true → url script ∈ urls final).
Proof.
  intros Hmerge Hround. unfold urls.
  induction captures as [|capture captures IH]; intros w prev Hprev.
  - exists prev. split; [done|]. split; [done|]. intros ? ? Hin. by apply elem_of_nil in Hin.
  - set (w0 := with_cdp (Some {| snapshot := Ok capture; issued := [];
                                 rejects := λ _, None |}) w).
    destruct (v8CoverageAfterEach_run o specFileName w0 _ capture prev eq_refl eq_refl Hprev)
      as (w1 & Hrun & Hfiles & _).
    set (merged := mergeProcessCovs
           [prev; {| result := List.filter (filterV8CoverageResult o) (result capture) |}])
      in Hfiles.
    assert (Hnext : priorArtifact parse_v8 {| result := [] |} (files w1)
                      (rawArtifact o specFileName) merged).
    { unfold priorArtifact. by rewrite Hfiles, lookup_insert_eq. }
    assert (Hw1 : test_ends o specFileName w capture = w1).
    { unfold test_ends. fold w0. by rewrite Hrun. }
    destruct (IH w1 merged Hnext) as (final & Hfinal & Hkept & Hlater).
    exists final. cbn [tests_end foldl]. rewrite Hw1. split; [exact Hfinal|].
    assert (Hurl : ∀ cov script, cov ∈ [prev; {| result :=
                      List.filter (filterV8CoverageResult o) (result capture) |}] →
                    script ∈ result cov → url script ∈ map url (result final)).
    { intros cov script Hcov Hscript.
      destruct (Hmerge _ cov script Hcov Hscript) as (script' & Hin' & <-).
      apply Hkept. by apply list_elem_of_fmap_2. }
    split.
    + intros u Hu. apply list_elem_of_fmap in Hu as (script & -> & Hscript).
      apply (Hurl prev); [apply elem_of_cons; by left | done].
    + intros capture' script Hcapture Hscript Haccept.
      apply elem_of_cons in Hcapture as [->|Hcapture]; [|by eapply Hlater].
      eapply Hurl; [apply elem_of_cons; right; apply elem_of_cons; by left|].
      simpl. apply list_elem_of_In, filter_In. split; [by apply list_elem_of_In | done].
Qed.

(** C10: when the resolved [baseUrls] is empty (as it is when neither the
    [baseUrls] option nor the Cypress [baseUrl] is given), the filter
    rejects every script, so what [afterEach] merges into the raw
    artifact is the empty report, whatever the capture holds. *)
Theorem empty_baseUrls_records_nothing {L : Libraries} (o : CypressV8CoverageOptions) :
  baseUrls o = [] →
  (∀ config options,
     baseUrl config = None → options ≫= opt_baseUrls = None →
     baseUrls (resolveOptions config options) = []) ∧
  (∀ script, filterV8CoverageResult o script = false) ∧
  (∀ testFileName w s raw prev,
     cdp w = Some s →
     snapshot s = Ok raw →
     priorArtifact parse_v8 {| result := [] |} (files w) (rawArtifact o testFileName) prev →
     List.filter (filterV8CoverageResult o) (result raw) = [] ∧
     ∃ w',
       v8CoverageAfterEach o testFileName w = (replies s [StopPreciseCoverage], w') ∧
       (rejects s StopPreciseCoverage = None →
        v8CoverageAfterEach o testFileName w = (Ok (Replies [StopPreciseCoverage]), w')) ∧
       files w' =
         <[ rawArtifact o testFileName :=
              utf8_encode (stringify_v8 (mergeProcessCovs [prev; {| result := [] |}])) ]>
           (files w)).
Proof.
  intros Hempty.
  assert (Hreject : ∀ script, filterV8CoverageResult o script = false).
  { intros script. unfold filterV8CoverageResult. by rewrite Hempty. }
  assert (Hnone : ∀ l, List.filter (filterV8CoverageResult o) l = []).
  { induction l as [|x l IH]; simpl; [done|]. by rewrite Hreject. }
  repeat split.
  - intros config options Hconfig Hoptions. unfold resolveOptions, option_or. simpl.
    rewrite Hconfig. destruct options as [po|]; simpl in *; [|done]. by rewrite Hoptions.
  - done.
  - apply Hnone.
  - destruct (v8CoverageAfterEach_run o testFileName w s raw prev) as (w' & Hrun & Hfiles & _);
      try done.
    exists w'. split; [done|]. split; [|by rewrite Hfiles, Hnone].
    intros Haccepts. rewrite Hrun. unfold replies, rejection. cbn. by rewrite Haccepts.
Qed.

(** ** Merging into the coverage map *)

Lemma cm_merge_lookup {L : Libraries} (m other : CoverageMap) (file : string) :
  is_Some (cm_merge m other !! file) ↔ is_Some (m !! file) ∨ is_Some (other !! file).
Proof.
  unfold cm_merge. rewrite lookup_union_with.
  rewrite !is_Some_alt. destruct (m !! file), (other !! file); simpl; tauto.
Qed.

Lemma foldM_invariant {A B} (f : B → A → M A) (I : A → Prop) (l : list B) :
  (∀ x a w a' w', f x a w = (Ok a', w') → I a → I a') →
  ∀ acc w acc' w', foldM f l acc w = (Ok acc', w') → I acc → I acc'.
Proof.
  intros Hf. induction l as [|x l IH]; intros acc w acc' w' Hrun Hacc; simpl in Hrun.
  - unfold ret in Hrun. congruence.
  - unfold bind in Hrun. destruct (f x acc w) as [[acc1|e] w1] eqn:Hstep; [|done].
    eapply IH; [exact Hrun|]. eapply Hf; eauto.
Qed.

Section Keeps.
Context {L : Libraries} (o : CypressV8CoverageOptions) (file : string).

Lemma convertScript_keeps (script : ScriptCoverage) (m m' : CoverageMap) (w w' : World) :
  convertScript o script m w = (Ok m', w') → is_Some (m !! file) → is_Some (m' !! file).
Proof.
  unfold convertScript. destruct (url_pathname _) as [jsFileName|]; [|done].
  unfold bind. destruct (getSources _ _ _) as [[bundle|e] w1]; [|done].
  destruct (text_falsy _).
  - unfold ret. congruence.
  - destruct (convertCoverage _ _ _ _) as [[[c|]|e] w2]; unfold ret; intros Hrun Hin;
      try done; injection Hrun as <- _; [|done].
    apply cm_merge_lookup. by left.
Qed.

Lemma convertUntested_keeps (script : ScriptCoverage) (m m' : CoverageMap) (w w' : World) :
  convertUntested script m w = (Ok m', w') → is_Some (m !! file) → is_Some (m' !! file).
Proof.
  unfold convertUntested, bind.
  destruct (convertCoverage _ _ _ _) as [[[c|]|e] w2]; unfold ret; intros Hrun Hin;
    try done; injection Hrun as <- _; [|done].
  apply cm_merge_lookup. by left.
Qed.

(** An entry of the map [generateCoverage] starts from is in the map it
    returns. *)
Lemma generateCoverage_keeps (coverage : ProcessCov) (existing m : CoverageMap)
    (w w' : World) :
  generateCoverage o coverage existing w = (Ok m, w') →
  is_Some (existing !! file) → is_Some (m !! file).
Proof.
  unfold generateCoverage, bind.
  destruct (foldM _ _ _ w) as [[m1|e] w1] eqn:Htested; [|done].
  intros Hrun Hin.
  assert (Hm1 : is_Some (m1 !! file)).
  { eapply (foldM_invariant (convertScript o) (λ m, is_Some (m !! file))); eauto.
    intros. eapply convertScript_keeps; eauto. }
  destruct (includeUncovered o).
  - destruct (getUntestedFileCoverage _ _ _) as [[untested|e] w2]; [|done].
    eapply (foldM_invariant convertUntested (λ m, is_Some (m !! file))); eauto.
    intros. eapply convertUntested_keeps; eauto.
  - unfold ret in Hrun. congruence.
Qed.

End Keeps.

Section Merges.
Context {L : Libraries} (o : CypressV8CoverageOptions) (existing : CoverageMap).

Lemma merged_from_step (m c : CoverageMap) :
  merged_from existing m → merged_from existing (cm_merge m c).
Proof.
  intros [converted ->]. exists (converted ++ [c])%list. by rewrite foldl_app.
Qed.

Lemma convertScript_merges (script : ScriptCoverage) (m m' : CoverageMap) (w w' : World) :
  convertScript o script m w = (Ok m', w') → merged_from existing m → merged_from existing m'.
Proof.
  unfold convertScript. destruct (url_pathname _) as [jsFileName|]; [|done].
  unfold bind. destruct (getSources _ _ _) as [[bundle|e] w1]; [|done].
  destruct (text_falsy _).
  - unfold ret. intros Hrun Hm. by injection Hrun as <- _.
  - destruct (convertCoverage _ _ _ _) as [[[c|]|e] w2]; unfold ret; intros Hrun Hm;
      try done; injection Hrun as <- _; [|done].
    by apply merged_from_step.
Qed.

Lemma convertUntested_merges (script : ScriptCoverage) (m m' : CoverageMap) (w w' : World) :
  convertUntested script m w = (Ok m', w') → merged_from existing m → merged_from existing m'.
Proof.
  unfold convertUntested, bind.
  destruct (convertCoverage _ _ _ _) as [[[c|]|e] w2]; unfold ret; intros Hrun Hm;
    try done; injection Hrun as <- _; [|done].
  by apply merged_from_step.
Qed.

(** The map [generateCoverage] returns is the map it starts from with
    converted coverage merged into it. *)
Lemma generateCoverage_merges (coverage : ProcessCov) (m : CoverageMap) (w w' : World) :
  generateCoverage o coverage existing w = (Ok m, w') →
  ∃ converted, m = foldl cm_merge existing converted.
Proof.
  unfold generateCoverage, bind.
  destruct (foldM _ _ _ w) as [[m1|e] w1] eqn:Htested; [|done].
  intros Hrun.
  assert (Hm1 : merged_from existing m1).
  { eapply (foldM_invariant (convertScript o) (merged_from existing)); [|exact Htested|by exists []].
    intros. eapply convertScript_merges; eauto. }
  destruct (includeUncovered o).
  - destruct (getUntestedFileCoverage _ _ _) as [[untested|e] w2]; [|done].
    eapply (foldM_invariant convertUntested (merged_from existing)); [|exact Hrun|exact Hm1].
    intros. eapply convertUntested_merges; eauto.
  - unfold ret in Hrun. by injection Hrun as <- _.
Qed.

End Merges.

(** ** Finalizing a spec *)


(** ** The source resolver *)

(** The map file decides what the bundle holds as map and what is
    printed; the built file decides whether the call returns. *)
Lemma getSources_outcome {L : Libraries} (o : CypressV8CoverageOptions)
    (filePath : string) (w : World) :
  ∃ smap msgs,
    getSources o filePath w =
      (match files w !! filePath with
       | Some code => Ok {| source := utf8_decode code;
                            originalSource := utf8_decode code;
                            sourceMap := smap |}
       | None => Throw (ENOENT filePath)
       end, printed msgs w).
Proof.
  unfold getSources, bind, try_catch, readFile.
  destruct (files w !! (filePath +:+ ".map")) as [mapBytes|].
  - destruct (parse_sourcemap (utf8_decode mapBytes)) as [[srcs rest|v]|];
      unfold ret, throw, error; cbn [files]; eexists _, _;
      destruct (files w !! filePath); try reflexivity;
      by rewrite printed_nil.
  - unfold error, ret; cbn [files]; eexists _, _;
      destruct (files w !! filePath); reflexivity.
Qed.

(** C8 (as amended): for a built file that can be read the call returns
    a bundle with the text of the file.  When the file [path.map] holds
    an object with a [sources] array, the bundle has that map with each
    source replaced by [path.resolve(buildDir + source)], an absolute
    path when [path.resolve] returns absolute paths, and nothing is
    printed; this is the only case in which nothing is printed.  When the
    map file holds another JSON value, a diagnostic is printed and the
    value is handed on as it is if it is truthy ([{}]) and dropped if it
    is not ([null]).  When the map file is missing or is not JSON, a
    diagnostic is printed and the bundle has no map. *)
Theorem getSources_bundle {L : Libraries} (o : CypressV8CoverageOptions)
    (filePath code : string) (w : World) :
  files w !! filePath = Some code →
  ∃ bundle msgs,
    getSources o filePath w = (Ok bundle, printed msgs w) ∧
    source bundle = utf8_decode code ∧
    originalSource bundle = utf8_decode code ∧
    (∀ mapBytes srcs rest,
       files w !! (filePath +:+ ".map") = Some mapBytes →
       parse_sourcemap (utf8_decode mapBytes) = Some (WithSources srcs rest) →
       sourceMap bundle =
         Some (WithSources
                 (map (λ src, path_resolve (buildDir o +:+ default "null" src)) srcs) rest) ∧
       msgs = []) ∧
    (∀ mapBytes v,
       files w !! (filePath +:+ ".map") = Some mapBytes →
       parse_sourcemap (utf8_decode mapBytes) = Some (WithoutSources v) →
       sourceMap bundle = (if json_truthy v then Some (WithoutSources v) else None) ∧
       msgs = [MapFileError filePath (TypeError (filePath +:+ ".map"))]) ∧
    (files w !! (filePath +:+ ".map") = None ∨
     (∃ mapBytes, files w !! (filePath +:+ ".map") = Some mapBytes ∧
                  parse_sourcemap (utf8_decode mapBytes) = None) →
     sourceMap bundle = None ∧ ∃ e, msgs = [MapFileError filePath e]) ∧
    (msgs = [] ↔
     ∃ mapBytes srcs rest,
       files w !! (filePath +:+ ".map") = Some mapBytes ∧
       parse_sourcemap (utf8_decode mapBytes) = Some (WithSources srcs rest)) ∧
    ((∀ p, startsWith (path_resolve p) "/" = true) →
     ∀ srcs rest, sourceMap bundle = Some (WithSources srcs rest) →
       Forall (λ src, startsWith src "/" = true) srcs).
Proof.
  intros Hcode. unfold getSources, bind, try_catch, readFile.
  destruct (files w !! (filePath +:+ ".map")) as [mapBytes|] eqn:Hmap.
  - destruct (parse_sourcemap (utf8_decode mapBytes)) as [[srcs rest|v]|] eqn:Hparse;
      unfold ret, throw, error; cbn [files]; rewrite Hcode.
    + eexists _, []. rewrite printed_nil. split; [reflexivity|]. cbn [source originalSource sourceMap].
      split; [done|]. split; [done|]. split; [|split; [|split; [|split]]].
      * intros mapBytes' srcs' rest' Hmap' Hparse'. by simplify_eq.
      * intros mapBytes' v' Hmap' Hparse'. by simplify_eq.
      * intros [Hnone | (mapBytes' & Hmap' & Hparse')]; by simplify_eq.
      * split; [intros _; by exists mapBytes, srcs, rest | done].
      * intros Habs srcs' rest' Heq. injection Heq as <- <-.
        apply Forall_forall. intros src Hsrc.
        apply list_elem_of_fmap in Hsrc as (x & -> & _). apply Habs.
    + eexists _, [_]. split; [reflexivity|]. cbn [source originalSource sourceMap].
      split; [done|]. split; [done|]. split; [|split; [|split; [|split]]].
      * intros mapBytes' srcs' rest' Hmap' Hparse'. by simplify_eq.
      * intros mapBytes' v' Hmap' Hparse'. by simplify_eq.
      * intros [Hnone | (mapBytes' & Hmap' & Hparse')]; by simplify_eq.
      * split; [done | intros (mapBytes' & srcs' & rest' & Hmap' & Hparse'); by simplify_eq].
      * intros Habs srcs' rest' Heq. by destruct (json_truthy v).
    + eexists _, [_]. split; [reflexivity|]. cbn [source originalSource sourceMap].
      split; [done|]. split; [done|]. split; [|split; [|split; [|split]]].
      * intros mapBytes' srcs' rest' Hmap' Hparse'. by simplify_eq.
      * intros mapBytes' v' Hmap' Hparse'. by simplify_eq.
      * intros _. split; [done | by eexists].
      * split; [done | intros (mapBytes' & srcs' & rest' & Hmap' & Hparse'); by simplify_eq].
      * intros Habs srcs' rest' Heq. done.
  - unfold error, ret; cbn [files]; rewrite Hcode.
    eexists _, [_]. split; [reflexivity|]. cbn [source originalSource sourceMap].
    split; [done|]. split; [done|]. split; [|split; [|split; [|split]]].
    + intros mapBytes' srcs' rest' Hmap' Hparse'. by simplify_eq.
    + intros mapBytes' v' Hmap' Hparse'. by simplify_eq.
    + intros _. split; [done | by eexists].
    + split; [done | intros (mapBytes' & srcs' & rest' & Hmap' & Hparse'); by simplify_eq].
    + intros Habs srcs' rest' Heq. done.
Qed.

(** ** Text and bytes *)

Lemma utf8_decode_ascii (bytes : string) :
  ascii_only bytes = true →
  utf8_decode bytes = map N_of_ascii (list_ascii_of_string bytes).
Proof.
  unfold utf8_decode. induction bytes as [|a rest IH]; [done|].
  cbn [ascii_only]. rewrite andb_true_iff. intros [Ha Hrest].
  cbn [utf8_decode_from list_ascii_of_string map].
  unfold utf8_step. cbn [utf8_idle u_needed]. change (0 =? 0) with true. cbv iota.
  unfold utf8_lead. rewrite Ha. cbn [app]. by rewrite IH.
Qed.

Lemma js_length_ascii (bytes : string) :
  ascii_only bytes = true → js_length (utf8_decode bytes) = byte_length bytes.
Proof.
  intros Hascii. rewrite (utf8_decode_ascii bytes Hascii). unfold byte_length.
  revert Hascii. induction bytes as [|a rest IH]; [done|].
  cbn [ascii_only]. rewrite andb_true_iff. intros [Ha Hrest].
  cbn [list_ascii_of_string map js_length foldr String.length].
  fold (js_length (map N_of_ascii (list_ascii_of_string rest))). rewrite (IH Hrest).
  unfold code_units. apply N.leb_le in Ha.
  destruct (N_of_ascii a <? 0x10000) eqn:Hlt; [lia|]. apply N.ltb_ge in Hlt. lia.
Qed.

(** ** The untested-file synthesizer *)

Lemma concat_singletons {A} (h : A → ScriptCoverage) (l : list A) :
  List.concat (map result (map (λ x, {| result := [h x] |}) l)) = map h l.
Proof. induction l as [|x l IH]; simpl; [done | by rewrite IH]. Qed.

Lemma no_record_of_absent (keep : string → bool) (g : string → ScriptCoverage)
    (l : list string) (file : string) :
  (∀ f, url (g f) = f) → file ∉ l →
  List.filter (λ script, String.eqb (url script) file) (map g (List.filter keep l)) = [].
Proof.
  intros Hurl. induction l as [|x l IH]; intros Hnot; simpl; [done|].
  apply not_elem_of_cons in Hnot as [Hne Hnot].
  destruct (keep x); simpl; [|by apply IH].
  rewrite Hurl. destruct (String.eqb_spec x file); [congruence | by apply IH].
Qed.

Lemma one_record_of_present (keep : string → bool) (g : string → ScriptCoverage)
    (l : list string) (file : string) :
  (∀ f, url (g f) = f) → NoDup l → file ∈ l → keep file = true →
  List.filter (λ script, String.eqb (url script) file) (map g (List.filter keep l)) = [g file].
Proof.
  intros Hurl Hnodup Hin Hkeep. induction l as [|x l IH]; [by apply elem_of_nil in Hin|].
  apply NoDup_cons in Hnodup as [Hx Hnodup]. simpl.
  destruct (decide (x = file)) as [->|Hne].
  - rewrite Hkeep. simpl. rewrite Hurl, String.eqb_refl. f_equal.
    by apply no_record_of_absent.
  - apply elem_of_cons in Hin as [->|Hin]; [done|].
    destruct (keep x); simpl; [|by apply IH].
    rewrite Hurl. destruct (String.eqb_spec x file); [done | by apply IH].
Qed.

Section Untested.
Context {L : Libraries} (o : CypressV8CoverageOptions).

Lemma mapM_emptyReport (l : list string) (w : World) :
  (∀ f, f ∈ l → is_Some (files w !! f)) →
  mapM (λ file, originalSource <- readFile file ;;
                ret {| result := [emptyReport file originalSource] |}) l w
  = (Ok (map (λ f, {| result := [synthesized (files w) f] |}) l), w).
Proof.
  induction l as [|x l IH]; intros Hread; [done|].
  destruct (Hread x) as [bytes Hx]; [set_solver|].
  assert (Hhead :
    (originalSource <- readFile x ;; ret {| result := [emptyReport x originalSource] |}) w
    = (Ok {| result := [synthesized (files w) x] |}, w)).
  { unfold bind, readFile, ret, synthesized. by rewrite Hx. }
  cbn [mapM map]. unfold bind at 1. rewrite Hhead.
  unfold bind at 1. rewrite IH by (intros f Hf; apply Hread; set_solver).
  reflexivity.
Qed.

(** C7 (as amended): when every untested file can be read (the reads
    are not guarded: one that fails makes the whole call fail) and the
    glob lists each file once, the reports handed to [mergeProcessCovs]
    hold, for an untested file, exactly one record with that file as URL;
    it has
    script id 0 and one function [(empty-report)], flagged as block
    coverage, with one range of count 0 from 0 to the length of the file's
    text (its UTF-8 content decoded, counted in UTF-16 code units), which
    is the number of bytes when the file is ASCII only. *)
Theorem getUntestedFileCoverage_records (testedFiles : list string) (w : World)
    (file bytes : string) :
  NoDup (allFiles o (files w)) →
  (∀ f, f ∈ untestedFiles o testedFiles (files w) → is_Some (files w !! f)) →
  file ∈ allFiles o (files w) →
  file ∉ testedFiles →
  files w !! file = Some bytes →
  ∃ reports,
    untestedReports o testedFiles w = (Ok reports, w) ∧
    getUntestedFileCoverage o testedFiles w
      = (Ok (mergeProcessCovs ({| result := [] |} :: reports)), w) ∧
    Forall (λ report, List.length (result report) = 1%nat) reports ∧
    (∃ script,
       List.filter (λ script, String.eqb (url script) file)
                   (List.concat (map result reports)) = [script] ∧
       scriptId script = "0" ∧
       whole_file_record file (js_length (utf8_decode bytes)) script) ∧
    (ascii_only bytes = true → js_length (utf8_decode bytes) = byte_length bytes).
Proof.
  intros Hnodup Hread Hin Hnot Hbytes.
  exists (map (λ f, {| result := [synthesized (files w) f] |})
              (untestedFiles o testedFiles (files w))).
  assert (Hrun : untestedReports o testedFiles w
                 = (Ok (map (λ f, {| result := [synthesized (files w) f] |})
                            (untestedFiles o testedFiles (files w))), w)).
  { unfold untestedReports. by apply mapM_emptyReport. }
  split; [done|]. split.
  { unfold getUntestedFileCoverage, bind. by rewrite Hrun. }
  split.
  { apply Forall_forall. intros report Hreport.
    apply list_elem_of_fmap in Hreport as (f & -> & _). done. }
  split.
  - exists (synthesized (files w) file). split; [|split].
    + rewrite concat_singletons. unfold untestedFiles.
      apply one_record_of_present; try done.
      apply negb_true_iff, bool_decide_eq_false. done.
    + done.
    + unfold synthesized, whole_file_record. by rewrite Hbytes.
  - apply js_length_ascii.
Qed.

End Untested.

(** ** Every selected file in the report *)

Lemma mapM_elem {A B} (f : A → M B) (l : list A) (x : A) :
  ∀ w ys w', mapM f l w = (Ok ys, w') → x ∈ l →
    ∃ y w0 w1, y ∈ ys ∧ f x w0 = (Ok y, w1).
Proof.
  induction l as [|a l IH]; intros w ys w' Hrun Hin; [by apply elem_of_nil in Hin|].
  cbn [mapM] in Hrun. unfold bind in Hrun.
  destruct (f a w) as [[y|e] w1] eqn:Hhead; [|done].
  destruct (mapM f l w1) as [[ys'|e] w2] eqn:Htail; [|done].
  unfold ret in Hrun. injection Hrun as <- <-.
  apply elem_of_cons in Hin as [->|Hin].
  - exists y, w, w1. split; [set_solver | done].
  - destruct (IH _ _ _ Htail Hin) as (y' & w0 & w0' & Hy & Hf).
    exists y', w0, w0'. split; [set_solver | done].
Qed.

Lemma cm_files_elem {L : Libraries} (m : CoverageMap) (file : string) :
  file ∈ cm_files m ↔ is_Some (m !! file).
Proof.
  unfold cm_files. rewrite list_elem_of_fmap. split.
  - intros [[k v] [-> Hkv]]. apply elem_of_map_to_list in Hkv. by eexists.
  - intros [v Hv]. exists (file, v). split; [done | by apply elem_of_map_to_list].
Qed.

Section Uncovered.
Context {L : Libraries} (o : CypressV8CoverageOptions).

(** A converter failure is caught: [convertCoverage] always returns. *)
Lemma convertCoverage_returns (filePath : string) (fns : list FunctionCoverage)
    (bundle : V8ToIstanbulSources) (w : World) :
  ∃ r w', convertCoverage filePath fns bundle w = (Ok r, w').
Proof.
  unfold convertCoverage, try_catch. destruct (v8ToIstanbul _ _ _ _ _ _); eauto.
Qed.

Lemma convertUntested_adds (script : ScriptCoverage) (m m' c : CoverageMap)
    (w w' : World) (file : string) :
  v8ToIstanbul (files w) (url script) (functions script) [] [] None = Ok c →
  is_Some (c !! file) →
  convertUntested script m w = (Ok m', w') → is_Some (m' !! file).
Proof.
  intros Hconv Hfile. unfold convertUntested, bind, convertCoverage, try_catch.
  cbn [source originalSource sourceMap]. rewrite Hconv. unfold ret. intros Hrun. injection Hrun as <- _.
  apply cm_merge_lookup. by right.
Qed.

Lemma foldM_convertUntested_adds (scripts : list ScriptCoverage) (script : ScriptCoverage)
    (file : string) :
  ∀ (m m' : CoverageMap) (w w' : World),
    (∃ c, v8ToIstanbul (files w) (url script) (functions script) [] [] None = Ok c ∧
          is_Some (c !! file)) →
    script ∈ scripts →
    foldM convertUntested scripts m w = (Ok m', w') → is_Some (m' !! file).
Proof.
  induction scripts as [|x scripts IH]; intros m m' w w' Hconv Hin Hrun;
    [by apply elem_of_nil in Hin|].
  cbn [foldM] in Hrun. unfold bind in Hrun.
  destruct (convertUntested x m w) as [[m1|e] w1] eqn:Hstep; [|done].
  pose proof (rp_files _ _ _ _ (rp_convertUntested x m) Hstep) as Hfiles.
  apply elem_of_cons in Hin as [->|Hin].
  - destruct Hconv as (c & Hc & Hfile).
    eapply (foldM_invariant convertUntested (λ m, is_Some (m !! file))); [|exact Hrun|].
    + intros. eapply convertUntested_keeps; eauto.
    + eapply convertUntested_adds; eauto.
  - eapply IH; [|done|exact Hrun]. by rewrite Hfiles.
Qed.

(** C2 (as amended): with [includeUncovered] set, a file selected by the
    include and exclude patterns has an entry in the map that
    [generateCoverage] returns, provided [mergeProcessCovs] keeps the URL
    of every record it is given and the conversion of the file's made-up
    coverage succeeds with an entry for the file. *)
Theorem generateCoverage_includes_uncovered (coverage : ProcessCov)
    (existing m : CoverageMap) (w w' : World) (file : string) :
  includeUncovered o = true →
  (∀ covs cov script, cov ∈ covs → script ∈ result cov →
     ∃ script', script' ∈ result (mergeProcessCovs covs) ∧ url script' = url script) →
  (∀ fns, ∃ c, v8ToIstanbul (files w) file fns [] [] None = Ok c ∧ is_Some (c !! file)) →
  file ∈ allFiles o (files w) →
  generateCoverage o coverage existing w = (Ok m, w') →
  is_Some (m !! file).
Proof.
  intros Hall Hmerge Hconv Hin. unfold generateCoverage. rewrite Hall. unfold bind.
  destruct (foldM (convertScript o) _ _ w) as [[m1|e] w1] eqn:Htested; [|done].
  assert (Hfiles1 : files w1 = files w).
  { eapply rp_files; [|exact Htested]. apply rp_foldM. intros. apply rp_convertScript. }
  destruct (getUntestedFileCoverage o (cm_files m1) w1) as [[untested|e] w2] eqn:Hun; [|done].
  pose proof (rp_files _ _ _ _ (rp_getUntestedFileCoverage o (cm_files m1)) Hun) as Hfiles2.
  intros Hrun.
  destruct (decide (file ∈ cm_files m1)) as [Htestedfile | Huntested].
  - eapply (foldM_invariant convertUntested (λ m, is_Some (m !! file))); [|exact Hrun|].
    + intros. eapply convertUntested_keeps; eauto.
    + by apply cm_files_elem.
  - unfold getUntestedFileCoverage, bind in Hun.
    destruct (untestedReports o (cm_files m1) w1) as [[reports|e] w3] eqn:Hreports; [|done].
    unfold ret in Hun. injection Hun as <- _.
    unfold untestedReports in Hreports.
    assert (Hfile : file ∈ untestedFiles o (cm_files m1) (files w1)).
    { unfold untestedFiles. apply list_elem_of_In, filter_In. split.
      - apply list_elem_of_In. by rewrite Hfiles1.
      - by apply negb_true_iff, bool_decide_eq_false. }
    destruct (mapM_elem _ _ file _ _ _ Hreports Hfile) as (report & w0 & w0' & Hreport & Hmade).
    unfold bind, readFile in Hmade. destruct (files w0 !! file) as [bytes|]; [|done].
    unfold ret in Hmade. injection Hmade as <- _.
    destruct (Hmerge ({| result := [] |} :: reports)
                     {| result := [emptyReport file (utf8_decode bytes)] |}
                     (emptyReport file (utf8_decode bytes)))
      as (script' & Hscript' & Hurl);
      [apply elem_of_cons; by right | apply elem_of_cons; by left |].
    simpl in Hurl.
    eapply (foldM_convertUntested_adds _ script' file); [|exact Hscript'|exact Hrun].
    rewrite Hurl, Hfiles2, Hfiles1. apply Hconv.
Qed.

End Uncovered.

(** ** What a script that cannot be converted does to the run *)

Section OneBadFile.
Context {L : Libraries} (o : CypressV8CoverageOptions).

(** A map file that is missing or does not parse is tolerated. *)
Lemma getSources_returns (filePath code : string) (w : World) :
  files w !! filePath = Some code →
  ∃ bundle w', getSources o filePath w = (Ok bundle, w').
Proof.
  intros Hcode. destruct (getSources_outcome o filePath w) as (smap & msgs & ->).
  rewrite Hcode. eauto.
Qed.

(** So is a failure of the converter: a script whose built file can be
    read never ends the run. *)
Lemma convertScript_returns (script : ScriptCoverage) (m : CoverageMap) (w : World)
    (jsFileName code : string) :
  url_pathname (url script) = Some jsFileName →
  files w !! path_resolve (buildDir o +:+ jsFileName) = Some code →
  ∃ m' w', convertScript o script m w = (Ok m', w').
Proof.
  intros Hurl Hcode. unfold convertScript. rewrite Hurl. unfold bind.
  destruct (getSources_returns _ code w Hcode) as (bundle & w1 & ->).
  destruct (text_falsy (source bundle)); [unfold ret; eauto|].
  destruct (convertCoverage_returns (path_resolve (buildDir o +:+ jsFileName))
              (functions script) bundle w1) as (r & w2 & ->).
  destruct r; unfold ret; eauto.
Qed.

(** A built file that cannot be read is not: the exception of the read
    leaves [convertScript], and with it the whole conversion. *)
Lemma convertScript_throws (script : ScriptCoverage) (m : CoverageMap) (w : World)
    (jsFileName : string) :
  url_pathname (url script) = Some jsFileName →
  files w !! path_resolve (buildDir o +:+ jsFileName) = None →
  ∃ w', convertScript o script m w
        = (Throw (ENOENT (path_resolve (buildDir o +:+ jsFileName))), w').
Proof.
  intros Hurl Hmissing. unfold convertScript. rewrite Hurl. unfold bind.
  destruct (getSources_outcome o (path_resolve (buildDir o +:+ jsFileName)) w)
    as (smap & msgs & ->).
  rewrite Hmissing. eauto.
Qed.

End OneBadFile.

(** * The example project *)

Lemma add_script_url_new (s : ScriptCoverage) (acc : list ScriptCoverage) :
  ∃ t, t ∈ Demo.add_script s acc ∧ url t = url s.
Proof.
  induction acc as [|t acc IH]; simpl.
  - exists s. split; [apply elem_of_cons; by left | done].
  - destruct (String.eqb_spec (url t) (url s)) as [Heq|Hne].
    + eexists. split; [apply elem_of_cons; by left | done].
    + destruct IH as (t' & Hin & Hurl). exists t'. split; [apply elem_of_cons; by right | done].
Qed.

Lemma add_script_url_old (s t : ScriptCoverage) (acc : list ScriptCoverage) :
  t ∈ acc → ∃ t', t' ∈ Demo.add_script s acc ∧ url t' = url t.
Proof.
  induction acc as [|t0 acc IH]; intros Hin; [by apply elem_of_nil in Hin|]. simpl.
  apply elem_of_cons in Hin as [->|Hin];
    destruct (String.eqb_spec (url t0) (url s)) as [Heq|Hne].
  - eexists. split; [apply elem_of_cons; by left | done].
  - exists t0. split; [apply elem_of_cons; by left | done].
  - exists t. split; [apply elem_of_cons; by right | done].
  - destruct (IH Hin) as (t' & Hin' & Hurl).
    exists t'. split; [apply elem_of_cons; by right | done].
Qed.

Lemma foldl_add_script_urls (l : list ScriptCoverage) :
  ∀ acc s, s ∈ acc ∨ s ∈ l →
    ∃ t, t ∈ foldl (λ acc s, Demo.add_script s acc) acc l ∧ url t = url s.
Proof.
  induction l as [|x l IH]; intros acc s Hin; simpl.
  - destruct Hin as [Hin|Hin]; [by exists s | by apply elem_of_nil in Hin].
  - destruct Hin as [Hin|Hin].
    + destruct (add_script_url_old x s acc Hin) as (t' & Hin' & Hurl).
      destruct (IH (Demo.add_script x acc) t' (or_introl Hin')) as (t & Ht & Hurl').
      exists t. split; [done | congruence].
    + apply elem_of_cons in Hin as [->|Hin].
      * destruct (add_script_url_new x acc) as (t' & Hin' & Hurl).
        destruct (IH (Demo.add_script x acc) t' (or_introl Hin')) as (t & Ht & Hurl').
        exists t. split; [done | congruence].
      * by apply IH; right.
Qed.

(** The stand-in for [mergeProcessCovs] keeps every URL. *)
Lemma merge_covs_keeps_urls (covs : list ProcessCov) (cov : ProcessCov)
    (script : ScriptCoverage) :
  cov ∈ covs → script ∈ result cov →
  ∃ script', script' ∈ result (Demo.merge_covs covs) ∧ url script' = url script.
Proof.
  intros Hcov Hscript. unfold Demo.merge_covs. simpl.
  apply foldl_add_script_urls. right.
  apply list_elem_of_In, in_concat. exists (result cov). split.
  - apply in_map. by apply list_elem_of_In.
  - by apply list_elem_of_In.
Qed.


(** The first test of the example spec ends: the script of the
    application is recorded, the one of Cypress is not. *)
Lemma v8CoverageAfterEach_accumulates_witness :
  ∃ w',
    @v8CoverageAfterEach Demo.libs Demo.options "App.cy.ts"
        (Demo.live {| result := [Demo.cypress_script; Demo.index_script] |})
      = (Ok (Replies [StopPreciseCoverage]), w') ∧
    files w' !! Demo.raw_path = Some (utf8_encode (Demo.print_v8 Demo.index_report)).
Proof.
  destruct (@v8CoverageAfterEach_accumulates Demo.libs Demo.options "App.cy.ts"
              (Demo.live {| result := [Demo.cypress_script; Demo.index_script] |})
              {| snapshot := Ok {| result := [Demo.cypress_script; Demo.index_script] |};
                 issued := []; rejects := λ _, None |}
              {| result := [Demo.cypress_script; Demo.index_script] |}
              {| result := [] |}
              merge_covs_keeps_urls eq_refl eq_refl)
    as (w' & merged & _ & Hrun & Hmerged & Hfile & _).
  { vm_compute. reflexivity. }
  exists w'. split; [exact (Hrun eq_refl)|].
  replace Demo.raw_path with (@rawArtifact Demo.libs Demo.options "App.cy.ts")
    by (vm_compute; reflexivity).
  rewrite Hfile, Hmerged. vm_compute. reflexivity.
Defined.


(** The stand-in for [path.resolve] returns absolute paths. *)
Lemma resolve_absolute (p : string) : startsWith (Demo.resolve p) "/" = true.
Proof.
  unfold Demo.resolve. destruct (Demo.normalize _) as [|seg segs]; [reflexivity|].
  cbn [Demo.absolute foldr].
  change ("/" +:+ seg +:+ foldr (λ seg acc, "/" +:+ seg +:+ acc) "" segs)
    with (String "/" (seg +:+ foldr (λ seg acc, "/" +:+ seg +:+ acc) "" segs)).
  reflexivity.
Qed.

(** The bundle of the built file of the example, whose map names one
    source: the source is resolved to a path outside the build
    directory. *)
Lemma getSources_bundle_witness :
  ∃ bundle,
    @getSources Demo.libs Demo.options "/app/dist/assets/index.js" Demo.after_tests
    = (Ok bundle, Demo.after_tests) ∧
    source bundle = utf8_decode "export const App=1;" ∧
    sourceMap bundle = Some (WithSources ["/app/src/App.tsx"] tt) ∧
    ∀ srcs rest, sourceMap bundle = Some (WithSources srcs rest) →
      Forall (λ src, startsWith src "/" = true) srcs.
Proof.
  destruct (@getSources_bundle Demo.libs Demo.options "/app/dist/assets/index.js"
              "export const App=1;" Demo.after_tests eq_refl)
    as (bundle & msgs & Hrun & Hsource & _ & Hmap & _ & _ & _ & Habsolute).
  destruct (Hmap (utf8_encode Demo.index_map_text) [Some "../../src/App.tsx"] tt)
    as [Hsmap Hmsgs]; [vm_compute; reflexivity | vm_compute; reflexivity |].
  exists bundle. rewrite Hrun, Hmsgs. split; [by rewrite printed_nil|].
  split; [exact Hsource|]. split; [rewrite Hsmap; vm_compute; reflexivity|].
  exact (Habsolute resolve_absolute).
Defined.

(** A map file that holds [null] is valid JSON, and the bundle has no
    map: reading [sources] of [null] throws, the error is printed, and
    the variable [sourceMap], being [null], is not handed on. *)
Lemma getSources_drops_null_map :
  files Cases.with_null_map !! "/app/dist/assets/index.js.map" = Some "null" ∧
  @parse_sourcemap Demo.libs (utf8_decode "null") = Some (WithoutSources Demo.JNull) ∧
  @getSources Demo.libs Demo.options "/app/dist/assets/index.js" Cases.with_null_map
  = (Ok {| source := utf8_decode "export const App=1;";
           originalSource := utf8_decode "export const App=1;";
           sourceMap := None |},
     printed [MapFileError "/app/dist/assets/index.js"
                (TypeError "/app/dist/assets/index.js.map")]
             Cases.with_null_map).
Proof. repeat split; vm_compute; reflexivity. Qed.

(** With nothing configured the base URLs are empty and the capture of
    the example leaves the empty report. *)
Lemma empty_baseUrls_records_nothing_witness :
  baseUrls Demo.unconfigured = [] ∧
  List.filter (@filterV8CoverageResult Demo.libs Demo.unconfigured)
              [Demo.cypress_script; Demo.index_script] = [].
Proof.
  split; [reflexivity|].
  destruct (@empty_baseUrls_records_nothing Demo.libs Demo.unconfigured eq_refl)
    as (_ & Hreject & _).
  cbn [List.filter]. by rewrite !Hreject.
Defined.

(** The file with an accented letter has five bytes and a text of four
    code units: its record ends at 4, not at its byte length. *)
Lemma untested_range_ends_at_text_length :
  files Demo.with_accent !! Demo.accent_path = Some Demo.accent_bytes ∧
  byte_length Demo.accent_bytes = 5 ∧
  ∃ script,
    @untestedReports Demo.libs Demo.options [] Demo.with_accent
      = (Ok [ {| result := [script] |} ], Demo.with_accent) ∧
    whole_file_record Demo.accent_path 4 script ∧
    ¬ whole_file_record Demo.accent_path (byte_length Demo.accent_bytes) script.
Proof.
  split; [vm_compute; reflexivity|]. split; [vm_compute; reflexivity|].
  exists (emptyReport Demo.accent_path (utf8_decode Demo.accent_bytes)).
  split; [vm_compute; reflexivity|]. split; [split; vm_compute; reflexivity|].
  intros [_ Hfunctions]. vm_compute in Hfunctions. discriminate Hfunctions.
Qed.

Lemma getUntestedFileCoverage_records_witness :
  ∃ reports script,
    @untestedReports Demo.libs Demo.options [] Demo.with_accent
      = (Ok reports, Demo.with_accent) ∧
    List.filter (λ script, String.eqb (url script) Demo.accent_path)
                (List.concat (map result reports)) = [script] ∧
    whole_file_record Demo.accent_path (js_length (utf8_decode Demo.accent_bytes)) script.
Proof.
  destruct (@getUntestedFileCoverage_records Demo.libs Demo.options [] Demo.with_accent
              Demo.accent_path Demo.accent_bytes)
    as (reports & Hrun & _ & _ & (script & Hone & _ & Hshape) & _).
  - apply (bool_decide_unpack _). vm_compute. exact I.
  - apply Forall_forall. apply (bool_decide_unpack _). vm_compute. exact I.
  - apply (bool_decide_unpack _). vm_compute. exact I.
  - apply not_elem_of_nil.
  - vm_compute. reflexivity.
  - exists reports, script. exact (conj Hrun (conj Hone Hshape)).
Defined.

(** A source file that names a map file which is not there cannot be
    converted: it is selected, the call returns, and the map has no entry
    for it. *)
Lemma generateCoverage_omits_unconvertible_file :
  includeUncovered Demo.options = true ∧
  Demo.legacy_path ∈ @allFiles Demo.libs Demo.options (files Demo.with_legacy) ∧
  ∃ m w',
    @generateCoverage Demo.libs Demo.options Demo.index_report ∅ Demo.with_legacy
      = (Ok m, w') ∧
    m !! Demo.legacy_path = None.
Proof.
  split; [reflexivity|]. split; [apply (bool_decide_unpack _); vm_compute; exact I|].
  eexists _, _. split; [vm_compute; reflexivity|]. vm_compute. reflexivity.
Qed.

Lemma generateCoverage_includes_uncovered_witness :
  ∃ m w',
    @generateCoverage Demo.libs Demo.options Demo.index_report ∅ Demo.after_tests = (Ok m, w') ∧
    is_Some (m !! "/app/src/Unused.tsx").
Proof.
  destruct (@generateCoverage Demo.libs Demo.options Demo.index_report ∅ Demo.after_tests)
    as [[m|e] w'] eqn:Hrun; [|vm_compute in Hrun; discriminate Hrun].
  exists m, w'. split; [reflexivity|].
  apply (@generateCoverage_includes_uncovered Demo.libs Demo.options Demo.index_report
           ∅ m Demo.after_tests w' "/app/src/Unused.tsx").
  - reflexivity.
  - exact merge_covs_keeps_urls.
  - intros fns. exists {[ "/app/src/Unused.tsx" := Demo.hits fns ]}.
    split; [reflexivity | by rewrite lookup_singleton_eq].
  - apply (bool_decide_unpack _). vm_compute. exact I.
  - exact Hrun.
Defined.

(** C1 (the defect): the raw artifact of the example holds [vendor.js],
    which has no file in the build directory, and [index.js].  The
    after-hook throws on the first; nothing is written, so the coverage
    of [index.js] is not converted either. *)
Example v8CoverageAfter_throws_on_missing_built_file :
  @v8CoverageAfter Demo.libs Demo.options "App.cy.ts" Demo.after_tests_vendor
  = (Throw (ENOENT "/app/dist/assets/vendor.js"),
     printed [MapFileError "/app/dist/assets/vendor.js"
                (ENOENT "/app/dist/assets/vendor.js.map")]
             Demo.after_tests_vendor).
Proof. vm_compute. reflexivity. Qed.

(** * The hooks in sequence *)

Section HookRuns.
Context {L : Libraries} (o : CypressV8CoverageOptions) (testFileName : string).

Local Abbreviation raw := (rawArtifact o testFileName).
Local Abbreviation canon := (canonicalArtifact o testFileName).

Lemma v8CoverageBefore_run (w : World) :
  v8CoverageBefore o testFileName w
  = (Ok Null, with_files (λ fs, delete canon (delete raw fs)) w).
Proof.
  unfold v8CoverageBefore, bind.
  by rewrite existsSync_eq, unlink_guarded, existsSync_eq, unlink_guarded.
Qed.

Lemma v8CoverageAfter_absent (w : World) :
  files w !! raw = None → v8CoverageAfter o testFileName w = (Ok Null, w).
Proof.
  intros Hraw. unfold v8CoverageAfter, bind. by rewrite existsSync_eq, Hraw.
Qed.

(** The two ways the after-hook ends: it throws before anything is
    written, or it returns [null] with the raw artifact gone. *)
Lemma v8CoverageAfter_outcome (w : World) :
  ∃ r w',
    v8CoverageAfter o testFileName w = (r, w') ∧
    dirs w' = dirs w ∧ cdp w' = cdp w ∧
    match r with
    | Throw _ => files w' = files w
    | Ok v =>
        v = Null ∧ files w' !! raw = None ∧
        ((files w !! raw = None ∧ w' = w) ∨
         ∃ bytes v8Coverage existing m w1,
           files w !! raw = Some bytes ∧
           parse_v8 (utf8_decode bytes) = Some v8Coverage ∧
           priorArtifact parse_istanbul ∅ (files w) canon existing ∧
           generateCoverage o v8Coverage existing w = (Ok m, w1) ∧
           files w' = delete raw (<[canon := utf8_encode (stringify_istanbul m)]> (files w)))
    end.
Proof.
  destruct (files w !! raw) as [bytes|] eqn:Hraw.
  2: { exists (Ok Null), w. rewrite v8CoverageAfter_absent by done. repeat split; try done.
       by left. }
  unfold v8CoverageAfter.
  unfold bind at 1. rewrite existsSync_eq, Hraw. cbn [negb].
  unfold bind at 1. unfold readJSON at 1. unfold bind at 1. unfold readFile at 1.
  rewrite Hraw. destruct (parse_v8 (utf8_decode bytes)) as [v8Coverage|] eqn:Hparse.
  2: { by exists (Throw (SyntaxError raw)), w. }
  unfold ret at 1. unfold bind at 1. rewrite existsSync_eq. unfold bind at 1.
  destruct ((if match files w !! canon with Some _ => true | None => false end
             then readJSON parse_istanbul canon else ret ∅) w) as [[existing|e] w0] eqn:Hold.
  2: { exists (Throw e), w0. split; [done|].
       destruct (files w !! canon) as [old|]; [|done].
       unfold readJSON, bind, readFile in Hold. destruct (files w !! canon); [|by injection Hold as _ <-].
       destruct (parse_istanbul _); unfold ret, throw in Hold; by injection Hold as _ <-. }
  assert (Hw0 : w0 = w).
  { destruct (files w !! canon) as [old|] eqn:Hcanon; [|unfold ret in Hold; congruence].
    unfold readJSON, bind, readFile in Hold. rewrite Hcanon in Hold.
    destruct (parse_istanbul _); unfold ret, throw in Hold; congruence. }
  subst w0. unfold bind at 1.
  assert (Hexisting : priorArtifact parse_istanbul ∅ (files w) canon existing).
  { unfold priorArtifact. destruct (files w !! canon) as [old|] eqn:Hcanon.
    - unfold readJSON, bind, readFile in Hold. rewrite Hcanon in Hold.
      destruct (parse_istanbul _); unfold ret, throw in Hold; congruence.
    - unfold ret in Hold. congruence. }
  destruct (generateCoverage o v8Coverage existing w) as [r w1] eqn:Hgen.
  destruct (rp_run _ w (rp_generateCoverage o v8Coverage existing)) as (r' & msgs & Hgen').
  rewrite Hgen in Hgen'. injection Hgen' as <- ->.
  destruct r as [m|e]; [|by exists (Throw e), (printed msgs w)].
  unfold bind, writeFileSync, unlinkSync. cbn [files with_files printed].
  assert (Hthere : is_Some (<[canon:=utf8_encode (stringify_istanbul m)]> (files w) !! raw)).
  { destruct (decide (canon = raw)) as [->|Hne].
    - rewrite lookup_insert_eq. by eexists.
    - rewrite lookup_insert_ne, Hraw by done. by eexists. }
  destruct Hthere as [data ->]. eexists (Ok Null), _. split; [reflexivity|].
  cbn [files dirs cdp with_files printed]. repeat split; [apply lookup_delete_eq|].
  right. by exists bytes, v8Coverage, existing, m, (printed msgs w).
Qed.

(** X1: when the after-hook throws (a corrupt artifact, a built file
    that cannot be read, ...), the file system is as it was: the raw
    artifact is still there and no canonical artifact was written. *)
Theorem v8CoverageAfter_throw_keeps_files (w w' : World) (e : Exn) :
  v8CoverageAfter o testFileName w = (Throw e, w') →
  files w' = files w ∧ dirs w' = dirs w ∧ cdp w' = cdp w.
Proof.
  intros Hrun. destruct (v8CoverageAfter_outcome w) as (r & w1 & Hrun1 & Hdirs & Hcdp & Hr).
  rewrite Hrun in Hrun1. injection Hrun1 as <- <-. done.
Qed.

(** X2: the after-hook converts a raw artifact once: called again after
    it returned, it returns [null] and changes nothing. *)
Theorem v8CoverageAfter_twice (w w' : World) (v : TaskValue) :
  v8CoverageAfter o testFileName w = (Ok v, w') →
  v8CoverageAfter o testFileName w' = (Ok Null, w').
Proof.
  intros Hrun. destruct (v8CoverageAfter_outcome w) as (r & w1 & Hrun1 & _ & _ & Hr).
  rewrite Hrun in Hrun1. injection Hrun1 as <- <-. destruct Hr as (_ & Hgone & _).
  by apply v8CoverageAfter_absent.
Qed.

(** X3: a spec without a test that ran (before-hook, then after-hook)
    leaves no artifact: the after-hook returns [null] and changes nothing,
    whatever was there before the spec. *)
Theorem v8CoverageBefore_then_After (w : World) :
  ∃ w1,
    v8CoverageBefore o testFileName w = (Ok Null, w1) ∧
    v8CoverageAfter o testFileName w1 = (Ok Null, w1) ∧
    files w1 !! raw = None ∧ files w1 !! canon = None.
Proof.
  eexists. split; [apply v8CoverageBefore_run|].
  assert (Hraw : delete canon (delete raw (files w)) !! raw = None).
  { destruct (decide (canon = raw)) as [->|Hne]; [apply lookup_delete_eq|].
    rewrite lookup_delete_ne by done. apply lookup_delete_eq. }
  split; [by apply v8CoverageAfter_absent|]. split; [exact Hraw|]. apply lookup_delete_eq.
Qed.

(** X4: what was in the two artifacts of a spec before its before-hook has
    no influence on what follows: two worlds that differ only in these two
    files are the same world after the hook. *)
Theorem v8CoverageBefore_forgets (w1 w2 : World) :
  (∀ p, p ≠ raw → p ≠ canon → files w1 !! p = files w2 !! p) →
  dirs w1 = dirs w2 → cdp w1 = cdp w2 → console w1 = console w2 →
  (v8CoverageBefore o testFileName w1).2 = (v8CoverageBefore o testFileName w2).2.
Proof.
  intros Hfiles Hdirs Hcdp Hconsole. rewrite !v8CoverageBefore_run. cbn [snd].
  unfold with_files. rewrite Hdirs, Hcdp, Hconsole. f_equal.
  apply map_eq. intros p.
  destruct (decide (p = canon)) as [->|Hc]; [by rewrite !lookup_delete_eq|].
  rewrite !(lookup_delete_ne _ canon) by done.
  destruct (decide (p = raw)) as [->|Hr]; [by rewrite !lookup_delete_eq|].
  rewrite !(lookup_delete_ne _ raw) by done. by apply Hfiles.
Qed.

End HookRuns.

Section AfterEachRuns.
Context {L : Libraries} (o : CypressV8CoverageOptions) (testFileName : string).

Local Abbreviation raw := (rawArtifact o testFileName).

Lemma rejection_one (s : Session) (cmd : ProfilerCommand) :
  rejection s [cmd] = rejects s cmd.
Proof. unfold rejection. cbn. by destruct (rejects s cmd). Qed.

Lemma replies_one (s : Session) (cmd : ProfilerCommand) :
  replies s [cmd] =
    match rejects s cmd with Some e => Throw e | None => Ok (Replies [cmd]) end.
Proof. unfold replies, rejection. cbn. by destruct (rejects s cmd). Qed.

(** Every way [afterEach] can end: with no session; with nothing
    written, when the capture is refused or the raw artifact of the
    earlier tests does not parse; with the artifact written, and then
    the answer of the client to [stopPreciseCoverage]. *)
Lemma v8CoverageAfterEach_outcome (w : World) :
  ∃ r w',
    v8CoverageAfterEach o testFileName w = (r, w') ∧
    (∀ p, p ≠ raw → files w' !! p = files w !! p) ∧
    dirs w ⊆ dirs w' ∧
    match cdp w with
    | None => r = Ok Null ∧ files w' = files w ∧ dirs w' = dirs w ∧ cdp w' = None
    | Some s =>
        ((∃ e, r = Throw e ∧
               (snapshot s = Throw e ∨
                ∃ bytes, files w !! raw = Some bytes ∧ parse_v8 (utf8_decode bytes) = None)) ∧
         files w' = files w ∧
         cdp w' = Some {| snapshot := snapshot s;
                          issued := (issued s ++ [TakePreciseCoverage])%list;
                          rejects := rejects s |}) ∨
        (r = replies s [StopPreciseCoverage] ∧
         (∃ capture prev,
            snapshot s = Ok capture ∧
            priorArtifact parse_v8 {| result := [] |} (files w) raw prev ∧
            files w' =
              <[ raw := utf8_encode
                          (stringify_v8
                             (mergeProcessCovs
                                [prev; {| result := List.filter (filterV8CoverageResult o)
                                                                (result capture) |}])) ]>
                (files w)) ∧
         coverageDir o ∈ dirs w' ∧
         cdp w' = Some {| snapshot := snapshot s;
                          issued := (issued s ++ [TakePreciseCoverage;
                                                  StopPreciseCoverage])%list;
                          rejects := rejects s |})
    end.
Proof.
  unfold v8CoverageAfterEach. destruct (cdp w) as [s|] eqn:Hcdp.
  2: { eexists (Ok Null), _. split; [reflexivity|]. by cbn. }
  unfold bind at 1. unfold takePreciseCoverage. rewrite Hcdp.
  destruct (snapshot s) as [capture|e] eqn:Hsnap.
  2: { eexists (Throw e), _. split; [reflexivity|]. cbn [files dirs cdp with_cdp].
       split; [done|]. split; [done|]. left. split; [|done].
       exists e. split; [done | by left]. }
  set (s1 := {| snapshot := Ok capture; issued := (issued s ++ [TakePreciseCoverage])%list;
                rejects := rejects s |}).
  unfold bind at 1. unfold existsSync_dir.
  set (w1 := with_cdp (Some s1) w).
  assert (Hdir : ∃ w2,
    (if bool_decide (coverageDir o ∈ dirs w1) then ret tt else mkdirSync (coverageDir o)) w1
      = (Ok tt, w2) ∧ files w2 = files w ∧ cdp w2 = Some s1 ∧
        dirs w ⊆ dirs w2 ∧ coverageDir o ∈ dirs w2).
  { case_bool_decide; eexists; (split; [reflexivity|]); cbn; repeat split; try done;
      set_solver. }
  destruct Hdir as (w2 & Hrun & Hfiles & Hcdp2 & Hsub & Hin).
  unfold bind at 1. rewrite Hrun. unfold bind at 1. rewrite existsSync_eq, Hfiles.
  unfold bind at 1.
  destruct ((if match files w !! raw with Some _ => true | None => false end
             then readJSON parse_v8 raw else ret {| result := [] |}) w2)
    as [[prev|e] w3] eqn:Hprev.
  2: { destruct (files w !! raw) as [bytes|] eqn:Hraw; [|done].
       unfold readJSON, bind, readFile in Hprev. rewrite Hfiles, Hraw in Hprev.
       destruct (parse_v8 (utf8_decode bytes)) eqn:Hparse; [done|].
       unfold throw in Hprev. injection Hprev as <- <-.
       exists (Throw (SyntaxError raw)), w2. split; [done|]. rewrite Hfiles.
       repeat split; try done. left. repeat split; try done.
       exists (SyntaxError raw). split; [done|]. right. by exists bytes. }
  assert (Hw3 : w3 = w2 ∧ priorArtifact parse_v8 {| result := [] |} (files w) raw prev).
  { unfold priorArtifact. destruct (files w !! raw) as [bytes|] eqn:Hraw.
    - unfold readJSON, bind, readFile in Hprev. rewrite Hfiles, Hraw in Hprev.
      destruct (parse_v8 _); unfold ret, throw in Hprev; [|done].
      by injection Hprev as <- <-.
    - unfold ret in Hprev. by injection Hprev as <- <-. }
  destruct Hw3 as [-> Hprior]. unfold bind, writeFileSync, send. cbn [cdp with_files].
  rewrite Hcdp2, rejection_one, replies_one. cbn [rejects s1].
  destruct (rejects s StopPreciseCoverage) as [e|];
    (eexists _, _; split; [reflexivity|]; cbn [files dirs cdp with_files with_cdp];
     rewrite Hfiles; split; [intros p Hp; by rewrite lookup_insert_ne|]; split; [done|];
     right; split; [done|]; split; [by exists capture, prev|]; split; [done|];
     cbn; by rewrite <- app_assoc).
Qed.

(** X5: whatever happens in it, [afterEach] changes no file other than
    the raw artifact of its spec and removes no directory. *)
Theorem v8CoverageAfterEach_touches_raw_only (w w' : World) (r : Result TaskValue) :
  v8CoverageAfterEach o testFileName w = (r, w') →
  (∀ p, p ≠ raw → files w' !! p = files w !! p) ∧ dirs w ⊆ dirs w'.
Proof.
  intros Hrun. destruct (v8CoverageAfterEach_outcome w) as (r1 & w1 & Hrun1 & Hframe & Hdirs & _).
  rewrite Hrun in Hrun1. by injection Hrun1 as <- <-.
Qed.


(** X7: when [afterEach] returns with a session, the coverage directory
    and the raw artifact exist, and the session was sent
    [takePreciseCoverage] and then [stopPreciseCoverage]. *)
Theorem v8CoverageAfterEach_returns (w w' : World) (v : TaskValue) (s : Session) :
  cdp w = Some s →
  v8CoverageAfterEach o testFileName w = (Ok v, w') →
  coverageDir o ∈ dirs w' ∧ is_Some (files w' !! raw) ∧
  cdp w' = Some {| snapshot := snapshot s;
                   issued := (issued s ++ [TakePreciseCoverage; StopPreciseCoverage])%list;
                   rejects := rejects s |}.
Proof.
  intros Hcdp Hrun.
  destruct (v8CoverageAfterEach_outcome w) as (r1 & w1 & Hrun1 & _ & _ & Hr).
  rewrite Hrun in Hrun1. injection Hrun1 as <- <-. rewrite Hcdp in Hr.
  destruct Hr as [((e & He & _) & _) | (_ & (capture & prev & _ & _ & Hfiles) & Hdir & Hsession)];
    [done|].
  split; [done|]. split; [|done]. rewrite Hfiles, lookup_insert_eq. by eexists.
Qed.

End AfterEachRuns.

Section SpecRuns.
Context {L : Libraries} (o : CypressV8CoverageOptions) (specFileName : string).

Local Abbreviation raw := (rawArtifact o specFileName).
Local Abbreviation canon := (canonicalArtifact o specFileName).

Lemma tests_end_frame (captures : list ProcessCov) :
  ∀ w p, p ≠ raw → files (tests_end o specFileName captures w) !! p = files w !! p.
Proof.
  unfold tests_end. induction captures as [|capture captures IH]; intros w p Hp; [done|].
  cbn [foldl]. rewrite IH by done. unfold test_ends.
  destruct (v8CoverageAfterEach_outcome o specFileName
              (with_cdp (Some {| snapshot := Ok capture; issued := [];
                                 rejects := λ _, None |}) w))
    as (r & w1 & -> & Hframe & _). cbn [snd]. by rewrite Hframe.
Qed.

(** X8: a spec run from its before-hook builds its canonical artifact
    from nothing.  After the before-hook and the tests, when the
    after-hook returns, the raw artifact is gone and no other file but
    the canonical artifact differs from before the spec; the canonical
    artifact is absent when no test left a raw artifact, and otherwise
    it is the serialization of the map that [generateCoverage] returns for
    the report of the raw artifact and the empty map, whatever the
    canonical artifact held before the spec. *)
Theorem spec_run_starts_from_empty (captures : list ProcessCov) (w w3 : World)
    (v : TaskValue) :
  raw ≠ canon →
  let w2 := tests_end o specFileName captures (v8CoverageBefore o specFileName w).2 in
  v8CoverageAfter o specFileName w2 = (Ok v, w3) →
  files w3 !! raw = None ∧
  (∀ p, p ≠ raw → p ≠ canon → files w3 !! p = files w !! p) ∧
  ((files w2 !! raw = None ∧ files w3 !! canon = None) ∨
   ∃ bytes report m w',
     files w2 !! raw = Some bytes ∧
     parse_v8 (utf8_decode bytes) = Some report ∧
     generateCoverage o report ∅ w2 = (Ok m, w') ∧
     files w3 !! canon = Some (utf8_encode (stringify_istanbul m))).
Proof.
  intros Hne w2 Hrun. unfold w2 in *. clear w2.
  rewrite v8CoverageBefore_run in *. cbn [snd] in *.
  set (w1 := with_files _ w) in *.
  set (w2 := tests_end o specFileName captures w1) in *.
  assert (Hcanon : files w2 !! canon = None).
  { unfold w2. rewrite tests_end_frame by done. apply lookup_delete_eq. }
  assert (Hframe : ∀ p, p ≠ raw → p ≠ canon → files w2 !! p = files w !! p).
  { intros p Hraw Hp. unfold w2. rewrite tests_end_frame by done.
    cbn [w1 files with_files]. by rewrite !lookup_delete_ne. }
  destruct (v8CoverageAfter_outcome o specFileName w2) as (r & w' & Hrun' & _ & _ & Hr).
  rewrite Hrun in Hrun'. injection Hrun' as <- <-.
  destruct Hr as (_ & Hgone &
    [[Hnone ->] | (bytes & report & existing & m & w' & Hraw & Hparse & Hprior & Hgen & Hfiles)]).
  - split; [done|]. split; [done|]. by left.
  - split; [done|]. unfold priorArtifact in Hprior. rewrite Hcanon in Hprior. subst existing.
    split.
    + intros p Hraw' Hp. rewrite Hfiles, lookup_delete_ne, lookup_insert_ne by done.
      by apply Hframe.
    + right. exists bytes, report, m, w'. repeat split; try done.
      by rewrite Hfiles, lookup_delete_ne, lookup_insert_eq.
Qed.

End SpecRuns.

(** * The conversion *)

Section Conversion.
Context {L : Libraries} (o : CypressV8CoverageOptions).

(** X9: [generateCoverage] only reads and prints.  It leaves the files,
    the directories and the session as they are, it can only add lines
    to the console, and its outcome and what it prints are the same in
    any world with the same files. *)
Theorem generateCoverage_reads_only (coverage : ProcessCov) (existing : CoverageMap)
    (w : World) :
  ∃ r msgs,
    generateCoverage o coverage existing w = (r, printed msgs w) ∧
    ∀ w2, files w2 = files w →
          generateCoverage o coverage existing w2 = (r, printed msgs w2).
Proof.
  destruct (rp_run _ w (rp_generateCoverage o coverage existing)) as (r & msgs & Hrun).
  exists r, msgs. split; [done|]. intros w2 Hfiles.
  destruct (rp_generateCoverage o coverage existing w w2 (eq_sym Hfiles))
    as (r' & msgs' & Hrun1 & Hrun2).
  rewrite Hrun in Hrun1. injection Hrun1 as -> Hprinted.
  apply app_inv_head in Hprinted. by subst.
Qed.

Lemma getSources_source (filePath code : string) (w w' : World)
    (bundle : V8ToIstanbulSources) :
  files w !! filePath = Some code →
  getSources o filePath w = (Ok bundle, w') →
  source bundle = utf8_decode code ∧ originalSource bundle = utf8_decode code.
Proof.
  intros Hcode. destruct (getSources_outcome o filePath w) as (smap & msgs & ->).
  rewrite Hcode. intros Hrun. by injection Hrun as <- _.
Qed.

(** A script with an empty built file, or one the converter refuses,
    leaves the map as it is. *)
Lemma convertScript_skips (script : ScriptCoverage) (m : CoverageMap) (w : World)
    (jsFileName code : string) :
  url_pathname (url script) = Some jsFileName →
  files w !! path_resolve (buildDir o +:+ jsFileName) = Some code →
  (code = "" ∨
   ∀ smap, ∃ e, v8ToIstanbul (files w) (path_resolve (buildDir o +:+ jsFileName))
                  (functions script) (utf8_decode code) (utf8_decode code) smap = Throw e) →
  ∃ w', convertScript o script m w = (Ok m, w').
Proof.
  intros Hurl Hcode Hskip. unfold convertScript. rewrite Hurl. unfold bind.
  destruct (getSources o _ w) as [[bundle|e] w1] eqn:Hsources.
  2: { destruct (getSources_returns o _ code w Hcode) as (b & w' & Hb). congruence. }
  destruct (getSources_source _ code w w1 bundle Hcode Hsources) as [Hsource Horiginal].
  pose proof (rp_files _ _ _ _ (rp_getSources o _) Hsources) as Hfiles.
  rewrite Hsource. destruct Hskip as [-> | Hthrow]; [by eexists|].
  destruct (text_falsy (utf8_decode code)); [by eexists|].
  unfold convertCoverage, try_catch. rewrite Hsource, Horiginal, Hfiles.
  destruct (Hthrow (sourceMap bundle)) as [e ->].
  unfold bind, error, ret. by eexists.
Qed.

Lemma foldM_skip {A B} (f : B → A → M A) (x : B) (l1 l2 : list B) :
  (∀ y a, reads_and_prints (f y a)) →
  ∀ (a : A) (w : World),
    (∀ a' w', files w' = files w → ∃ w'', f x a' w' = (Ok a', w'')) →
    (foldM f (l1 ++ x :: l2) a w).1 = (foldM f (l1 ++ l2) a w).1.
Proof.
  intros Hrp. induction l1 as [|y l1 IH]; intros a w Hskip.
  - cbn [app foldM]. unfold bind. destruct (Hskip a w eq_refl) as [w1 Hx]. rewrite Hx.
    pose proof (rp_files _ _ _ _ (Hrp x a) Hx) as Hfiles.
    destruct (rp_foldM f l2 a Hrp w w1 (eq_sym Hfiles)) as (r & msgs & -> & ->). done.
  - cbn [app foldM]. unfold bind. destruct (f y a w) as [[a1|e] w1] eqn:Hy; [|done].
    pose proof (rp_files _ _ _ _ (Hrp y a) Hy) as Hfiles.
    apply IH. intros a' w' Hw'. apply Hskip. congruence.
Qed.

(** X10: a script that cannot be converted is as if it had not been
    captured.  When its built file is empty, or the converter throws on
    it, [generateCoverage] returns for the report with the script
    exactly what it returns for the report without it. *)
Theorem generateCoverage_skips_script (script : ScriptCoverage)
    (before after : list ScriptCoverage) (existing : CoverageMap) (w : World)
    (jsFileName code : string) :
  url_pathname (url script) = Some jsFileName →
  files w !! path_resolve (buildDir o +:+ jsFileName) = Some code →
  (code = "" ∨
   ∀ smap, ∃ e, v8ToIstanbul (files w) (path_resolve (buildDir o +:+ jsFileName))
                  (functions script) (utf8_decode code) (utf8_decode code) smap = Throw e) →
  (generateCoverage o {| result := before ++ script :: after |} existing w).1
  = (generateCoverage o {| result := before ++ after |} existing w).1.
Proof.
  intros Hurl Hcode Hskip. unfold generateCoverage. cbn [result]. unfold bind at 1 3.
  pose proof (foldM_skip (convertScript o) script before after
                (λ y a, rp_convertScript o y a) existing w) as Hfold.
  assert (Hnoop : ∀ a' w', files w' = files w →
                    ∃ w'', convertScript o script a' w' = (Ok a', w'')).
  { intros a' w' Hw'. apply (convertScript_skips script a' w' jsFileName code); try done.
    - by rewrite Hw'.
    - by rewrite Hw'. }
  specialize (Hfold Hnoop).
  destruct (foldM (convertScript o) (before ++ script :: after) existing w)
    as [r1 w1] eqn:Hwith.
  destruct (foldM (convertScript o) (before ++ after) existing w) as [r2 w2] eqn:Hwithout.
  cbn [fst] in Hfold. subst r2. destruct r1 as [m1|e]; [|done].
  assert (Hfiles : files w1 = files w2).
  { transitivity (files w).
    - eapply rp_files; [|exact Hwith]. apply rp_foldM. intros. apply rp_convertScript.
    - symmetry. eapply rp_files; [|exact Hwithout]. apply rp_foldM. intros.
      apply rp_convertScript. }
  assert (Hrest : reads_and_prints
            (if includeUncovered o
             then untestedCoverage <- getUntestedFileCoverage o (cm_files m1) ;;
                  foldM convertUntested (result untestedCoverage) m1
             else ret m1)).
  { destruct (includeUncovered o); [|apply rp_ret].
    apply rp_bind; [apply rp_getUntestedFileCoverage|intros untested].
    apply rp_foldM. intros. apply rp_convertUntested. }
  destruct (Hrest w1 w2 Hfiles) as (r & msgs & -> & ->). done.
Qed.

End Conversion.

(** * The synthesizer, further *)

Section Synthesizer.
Context {L : Libraries} (o : CypressV8CoverageOptions).

(** Reading the untested files either succeeds on all of them or stops
    at one that is not there. *)
Lemma mapM_emptyReport_cases (l : list string) (w : World) :
  let read := λ file, (originalSource <- readFile file ;;
                       ret {| result := [emptyReport file originalSource] |}) in
  ((∀ f, f ∈ l → is_Some (files w !! f)) ∧
   mapM read l w = (Ok (map (λ f, {| result := [synthesized (files w) f] |}) l), w)) ∨
  (∃ f, f ∈ l ∧ files w !! f = None ∧ mapM read l w = (Throw (ENOENT f), w)).
Proof.
  intros read. induction l as [|x l IH].
  - left. split; [|done]. intros f Hf. by apply elem_of_nil in Hf.
  - destruct (files w !! x) as [bytes|] eqn:Hx.
    + assert (Hhead : read x w = (Ok {| result := [synthesized (files w) x] |}, w)).
      { unfold read, bind, readFile, ret, synthesized. by rewrite Hx. }
      destruct IH as [[Hall Hrun] | (f & Hf & Hnone & Hrun)].
      * left. split.
        { intros f Hf. apply elem_of_cons in Hf as [->|Hf]; [by eexists | by apply Hall]. }
        cbn [mapM map]. unfold bind at 1. rewrite Hhead. unfold bind at 1. by rewrite Hrun.
      * right. exists f. split; [apply elem_of_cons; by right|]. split; [done|].
        cbn [mapM]. unfold bind at 1. rewrite Hhead. unfold bind at 1. by rewrite Hrun.
    + right. exists x. split; [apply elem_of_cons; by left|]. split; [done|].
      cbn [mapM]. unfold bind at 1. unfold read at 1. unfold bind, readFile. by rewrite Hx.
Qed.

(** X11: when the synthesizer returns, it has made one record for each
    untested file, in the order of the glob, and no other: none for a
    tested file, none for a file outside the selection, and none at all
    when every selected file is tested. *)
Theorem untestedReports_exact (testedFiles : list string) (w w' : World)
    (reports : list ProcessCov) :
  untestedReports o testedFiles w = (Ok reports, w') →
  w' = w ∧
  reports = map (λ f, {| result := [synthesized (files w) f] |})
                (untestedFiles o testedFiles (files w)) ∧
  (∀ script, script ∈ List.concat (map result reports) →
     (url script ∉ testedFiles) ∧ url script ∈ allFiles o (files w)) ∧
  ((∀ f, f ∈ allFiles o (files w) → f ∈ testedFiles) → reports = []).
Proof.
  intros Hrun. unfold untestedReports in Hrun.
  destruct (mapM_emptyReport_cases (untestedFiles o testedFiles (files w)) w)
    as [[_ Hok] | (f & _ & _ & Hthrow)]; [|congruence].
  rewrite Hok in Hrun. injection Hrun as <- <-. split; [done|]. split; [done|].
  assert (Hmember : ∀ f, f ∈ untestedFiles o testedFiles (files w) →
                         (f ∉ testedFiles) ∧ f ∈ allFiles o (files w)).
  { intros f Hf. unfold untestedFiles in Hf. apply list_elem_of_In, filter_In in Hf as [Hin Hnot].
    apply negb_true_iff, bool_decide_eq_false in Hnot. split; [done | by apply list_elem_of_In]. }
  split.
  - intros script Hscript. rewrite concat_singletons in Hscript.
    apply list_elem_of_fmap in Hscript as (f & -> & Hf). by apply Hmember.
  - intros Hall. destruct (untestedFiles o testedFiles (files w)) as [|f rest] eqn:Hlist; [done|].
    destruct (Hmember f) as [Hnot Hin]; [apply elem_of_cons; by left|].
    by destruct (Hnot (Hall f Hin)).
Qed.

(** X12: a selected, untested file that cannot be read makes the
    synthesizer throw the error of the read: the read is not guarded. *)
Theorem getUntestedFileCoverage_unreadable (testedFiles : list string) (w : World)
    (file : string) :
  file ∈ untestedFiles o testedFiles (files w) →
  files w !! file = None →
  ∃ f, f ∈ untestedFiles o testedFiles (files w) ∧ files w !! f = None ∧
       getUntestedFileCoverage o testedFiles w = (Throw (ENOENT f), w).
Proof.
  intros Hin Hnone. unfold getUntestedFileCoverage, bind, untestedReports.
  destruct (mapM_emptyReport_cases (untestedFiles o testedFiles (files w)) w)
    as [[Hall _] | (f & Hf & Hfnone & Hthrow)].
  - destruct (Hall file Hin) as [bytes Hbytes]. congruence.
  - exists f. by rewrite Hthrow.
Qed.

End Synthesizer.

(** ** The length of a text and of its bytes *)

Lemma js_length_app (a b : text) :
  js_length (a ++ b)%list = js_length a + js_length b.
Proof.
  induction a as [|cp a IH]; [done|]. cbn [app js_length foldr].
  fold (js_length (a ++ b)%list). fold (js_length a). rewrite IH. lia.
Qed.

Lemma code_units_le (cp : N) : code_units cp ≤ 2.
Proof. unfold code_units. destruct (cp <? 0x10000); lia. Qed.

Lemma utf8_lead_bound (b : N) :
  js_length (utf8_lead b).1 + pending (utf8_lead b).2 ≤ 1.
Proof.
  unfold utf8_lead. destruct (b <=? 0x7F) eqn:Hascii.
  - apply N.leb_le in Hascii. cbn. unfold code_units.
    destruct (b <? 0x10000) eqn:Hlt; [lia|]. apply N.ltb_ge in Hlt. lia.
  - destruct ((0xC2 <=? b) && (b <=? 0xDF)); [cbn; lia|].
    destruct ((0xE0 <=? b) && (b <=? 0xEF)); [cbn; lia|].
    destruct ((0xF0 <=? b) && (b <=? 0xF4)); cbn; lia.
Qed.

Lemma utf8_step_bound (st : utf8_state) (b : N) :
  js_length (utf8_step st b).1 + pending (utf8_step st b).2 ≤ 1 + pending st.
Proof.
  unfold utf8_step, pending at 2. destruct (u_needed st =? 0) eqn:Hneeded.
  - pose proof (utf8_lead_bound b). lia.
  - destruct (negb _).
    + pose proof (utf8_lead_bound b) as Hlead.
      destruct (utf8_lead b) as [out st']. cbn [fst snd] in *.
      cbn [js_length foldr]. fold (js_length out). change (code_units replacement) with 1. lia.
    + cbv zeta. destruct (u_seen st + 1 =? u_needed st).
      * cbn [fst snd js_length foldr]. pose proof (code_units_le
          (N.lor (N.shiftl (u_code_point st) 6) (N.land b 63))). cbn. lia.
      * cbn [fst snd]. unfold pending. cbn [u_needed]. rewrite Hneeded. cbn. lia.
Qed.

Lemma js_length_decode_from (bytes : string) :
  ∀ st, js_length (utf8_decode_from st bytes) ≤ byte_length bytes + pending st.
Proof.
  unfold byte_length. induction bytes as [|a rest IH]; intros st.
  - cbn [utf8_decode_from]. unfold pending. destruct (u_needed st =? 0); cbn; lia.
  - cbn [utf8_decode_from String.length].
    pose proof (utf8_step_bound st (N_of_ascii a)) as Hstep.
    destruct (utf8_step st (N_of_ascii a)) as [out st']. cbn [fst snd] in Hstep.
    rewrite js_length_app. specialize (IH st'). lia.
Qed.

(** X13: the range made up for an untested file starts at 0 and never
    runs past the end of the file: the length of a decoded text is at
    most the number of bytes it was decoded from. *)
Theorem emptyReport_within_file (file bytes : string) (f : FunctionCoverage)
    (r : CoverageRange) :
  f ∈ functions (emptyReport file (utf8_decode bytes)) →
  r ∈ ranges f →
  startOffset r = 0 ∧ endOffset r ≤ byte_length bytes ∧ count r = 0.
Proof.
  intros Hf Hr. cbn in Hf. apply list_elem_of_singleton in Hf. subst f.
  cbn in Hr. apply list_elem_of_singleton in Hr. subst r. cbn [startOffset endOffset count].
  repeat split. pose proof (js_length_decode_from bytes utf8_idle) as Hbound.
  unfold utf8_decode. change (pending utf8_idle) with 0 in Hbound. lia.
Qed.

(** * The filter, further *)

(** X14: widening the configuration never loses a script.  A script the
    filter accepts is still accepted with more base URLs, more include
    patterns and fewer exclude patterns. *)
Theorem filterV8CoverageResult_monotone {L : Libraries}
    (o o' : CypressV8CoverageOptions) (script : ScriptCoverage) :
  baseUrls o ⊆ baseUrls o' →
  includeV8Patterns o ⊆ includeV8Patterns o' →
  excludeV8Patterns o' ⊆ excludeV8Patterns o →
  filterV8CoverageResult o script = true →
  filterV8CoverageResult o' script = true.
Proof.
  intros Hbase Hinclude Hexclude. unfold filterV8CoverageResult.
  destruct (existsb _ (baseUrls o)) eqn:Hb; [|done].
  apply existsb_elem_of in Hb as (b & Hin & Hstarts).
  assert (Hb' : existsb (λ u, startsWith (url script) u) (baseUrls o') = true).
  { apply existsb_elem_of. exists b. split; [by apply Hbase | done]. }
  rewrite Hb'. cbn [negb]. destruct (includes _ _); [done|].
  rewrite !andb_true_iff, !negb_true_iff. intros [Hinc Hexc]. split.
  - apply existsb_elem_of in Hinc as (p & Hp & Hmatch).
    apply existsb_elem_of. exists p. split; [by apply Hinclude | done].
  - apply existsb_false_elem_of. intros p Hp.
    by apply (proj1 (existsb_false_elem_of _ _) Hexc), Hexclude.
Qed.

(** * Writing and reading back *)

Ltac div_mod_lia := zify; Z.to_euclidean_division_equations; lia.

Lemma lor_add (a b : N) (k : N) : a mod 2 ^ k = 0 → b < 2 ^ k → N.lor a b = a + b.
Proof.
  intros Ha Hb.
  assert (Hland : N.land a b = 0); [|by rewrite <- N.lxor_lor, N.add_nocarry_lxor].
  apply N.bits_inj_0. intros i.
  rewrite N.land_spec. destruct (N.lt_ge_cases i k) as [Hlt|Hge].
  - rewrite <- (N.mod_pow2_bits_low a k i Hlt), Ha, N.bits_0. done.
  - rewrite <- (N.mod_small b (2 ^ k) Hb), N.mod_pow2_bits_high by done.
    apply andb_false_r.
Qed.

Lemma utf8_encode_cp_arith (cp : N) :
  utf8_encode_cp cp =
    if cp <? 0x80 then [cp]
    else if cp <? 0x800 then [192 + cp / 64; 128 + cp mod 64]
    else if (0xD800 <=? cp) && (cp <=? 0xDFFF) then [0xEF; 0xBF; 0xBD]
    else if cp <? 0x10000 then [224 + cp / 4096; 128 + (cp / 64) mod 64; 128 + cp mod 64]
    else [N.lor 240 (cp / 262144); 128 + (cp / 4096) mod 64; 128 + (cp / 64) mod 64;
          128 + cp mod 64].
Proof.
  unfold utf8_encode_cp.
  change 0x3F with (N.ones 6). rewrite !N.land_ones, !N.shiftr_div_pow2.
  change (2 ^ 6) with 64. change (2 ^ 12) with 4096. change (2 ^ 18) with 262144.
  assert (Hcont : ∀ x, N.lor 128 (x mod 64) = 128 + x mod 64).
  { intros x. apply (lor_add 128 (x mod 64) 6); [done|]. change (2 ^ 6) with 64. div_mod_lia. }
  rewrite !Hcont.
  destruct (N.ltb_spec cp 0x80); [done|].
  destruct (N.ltb_spec cp 0x800).
  { rewrite (lor_add 192 (cp / 64) 6); [done|done|]. change (2^6) with 64. div_mod_lia. }
  destruct ((0xD800 <=? cp) && (cp <=? 0xDFFF)); [done|].
  destruct (N.ltb_spec cp 0x10000); [|done].
  rewrite (lor_add 224 (cp / 4096) 5); [done|done|]. change (2^5) with 32. div_mod_lia.
Qed.

Lemma decode_cons (st : utf8_state) (b : N) (rest : string) :
  b < 256 →
  utf8_decode_from st (String (ascii_of_N b) rest)
  = ((utf8_step st b).1 ++ utf8_decode_from (utf8_step st b).2 rest)%list.
Proof.
  intros Hb. cbn [utf8_decode_from]. rewrite N_ascii_embedding by done.
  by destruct (utf8_step st b).
Qed.

Lemma utf8_lead_2 (b : N) :
  194 ≤ b ≤ 223 → utf8_lead b = ([], Utf8State (b mod 32) 0 1 0x80 0xBF).
Proof.
  intros Hb. unfold utf8_lead.
  rewrite (proj2 (N.leb_gt b 0x7F)) by lia.
  rewrite (proj2 (N.leb_le 0xC2 b)), (proj2 (N.leb_le b 0xDF)) by lia. cbn [andb].
  change 0x1F with (N.ones 5). by rewrite N.land_ones.
Qed.

Lemma utf8_lead_3 (b : N) :
  224 ≤ b ≤ 239 →
  utf8_lead b = ([], Utf8State (b mod 16) 0 2
                      (if b =? 0xE0 then 0xA0 else 0x80)
                      (if b =? 0xED then 0x9F else 0xBF)).
Proof.
  intros Hb. unfold utf8_lead.
  rewrite (proj2 (N.leb_gt b 0x7F)) by lia.
  rewrite (proj2 (N.leb_le 0xC2 b)), (proj2 (N.leb_gt b 0xDF)) by lia. cbn [andb].
  rewrite (proj2 (N.leb_le 0xE0 b)), (proj2 (N.leb_le b 0xEF)) by lia. cbn [andb].
  change 0xF with (N.ones 4). by rewrite N.land_ones.
Qed.

Lemma utf8_lead_4 (b : N) :
  240 ≤ b ≤ 244 →
  utf8_lead b = ([], Utf8State (b mod 8) 0 3
                      (if b =? 0xF0 then 0x90 else 0x80)
                      (if b =? 0xF4 then 0x8F else 0xBF)).
Proof.
  intros Hb. unfold utf8_lead.
  rewrite (proj2 (N.leb_gt b 0x7F)) by lia.
  rewrite (proj2 (N.leb_le 0xC2 b)), (proj2 (N.leb_gt b 0xDF)) by lia. cbn [andb].
  rewrite (proj2 (N.leb_le 0xE0 b)), (proj2 (N.leb_gt b 0xEF)) by lia. cbn [andb].
  rewrite (proj2 (N.leb_le 0xF0 b)), (proj2 (N.leb_le b 0xF4)) by lia. cbn [andb].
  change 0x7 with (N.ones 3). by rewrite N.land_ones.
Qed.

Lemma utf8_step_continue (st : utf8_state) (y : N) :
  u_needed st ≠ 0 → y < 64 → u_lower st ≤ 128 + y ≤ u_upper st →
  utf8_step st (128 + y) =
    if u_seen st + 1 =? u_needed st
    then ([u_code_point st * 64 + y], utf8_idle)
    else ([], Utf8State (u_code_point st * 64 + y) (u_seen st + 1) (u_needed st) 0x80 0xBF).
Proof.
  intros Hneeded Hy Hrange. unfold utf8_step.
  rewrite (proj2 (N.eqb_neq _ _) Hneeded).
  rewrite (proj2 (N.leb_le (u_lower st) _)), (proj2 (N.leb_le _ (u_upper st))) by lia.
  cbn [andb negb]. change 0x3F with (N.ones 6). rewrite N.land_ones, N.shiftl_mul_pow2.
  change (2 ^ 6) with 64.
  replace ((128 + y) mod 64) with y by div_mod_lia.
  rewrite (lor_add (u_code_point st * 64) y 6); [done| |done].
  change (2 ^ 6) with 64. div_mod_lia.
Qed.

Lemma decode_encode_cp (cp : N) (rest : string) :
  valid_scalar cp →
  utf8_decode_from utf8_idle
    (foldr (λ b s, String (ascii_of_N b) s) rest (utf8_encode_cp cp))
  = cp :: utf8_decode_from utf8_idle rest.
Proof.
  intros Hvalid. unfold valid_scalar in Hvalid. rewrite utf8_encode_cp_arith.
  destruct (N.ltb_spec cp 0x80) as [H1|H1].
  { cbn [foldr]. rewrite decode_cons by lia. unfold utf8_step. cbn [utf8_idle u_needed].
    change (0 =? 0) with true. cbv iota. unfold utf8_lead.
    by rewrite (proj2 (N.leb_le cp 0x7F)) by lia. }
  destruct (N.ltb_spec cp 0x800) as [H2|H2].
  { cbn [foldr]. rewrite decode_cons by div_mod_lia.
    unfold utf8_step at 1 2. cbn [utf8_idle u_needed]. change (0 =? 0) with true. cbv iota.
    rewrite utf8_lead_2 by div_mod_lia. cbn [fst snd app].
    rewrite decode_cons by div_mod_lia.
    rewrite utf8_step_continue; cbn [u_needed u_seen u_lower u_upper u_code_point];
      [|done|div_mod_lia|div_mod_lia].
    change (0 + 1 =? 1) with true. cbv iota. cbn [fst snd app]. f_equal. div_mod_lia. }
  assert (Hsur : (0xD800 <=? cp) && (cp <=? 0xDFFF) = false).
  { destruct Hvalid as [Hlow|[Hhigh _]].
    - by rewrite (proj2 (N.leb_gt 0xD800 cp)) by lia.
    - rewrite (proj2 (N.leb_gt cp 0xDFFF)) by lia. apply andb_false_r. }
  rewrite Hsur.
  destruct (N.ltb_spec cp 0x10000) as [H3|H3].
  { cbn [foldr]. rewrite decode_cons by div_mod_lia.
    unfold utf8_step at 1 2. cbn [utf8_idle u_needed]. change (0 =? 0) with true. cbv iota.
    rewrite utf8_lead_3 by div_mod_lia. cbn [fst snd app].
    rewrite decode_cons by div_mod_lia.
    rewrite utf8_step_continue; cbn [u_needed u_seen u_lower u_upper u_code_point];
      [|done|div_mod_lia|].
    2: { destruct (N.eqb_spec (224 + cp / 4096) 224), (N.eqb_spec (224 + cp / 4096) 237);
           div_mod_lia. }
    change (0 + 1 =? 2) with false. cbv iota. cbn [fst snd app].
    rewrite decode_cons by div_mod_lia.
    rewrite utf8_step_continue; cbn [u_needed u_seen u_lower u_upper u_code_point];
      [|done|div_mod_lia|div_mod_lia].
    change (0 + 1 + 1 =? 2) with true. cbv iota. cbn [fst snd app]. f_equal. div_mod_lia. }
  assert (H4 : cp < 0x110000) by (destruct Hvalid as [?|[_ ?]]; lia).
  rewrite (lor_add 240 (cp / 262144) 3); [|done|change (2 ^ 3) with 8; div_mod_lia].
  cbn [foldr]. rewrite decode_cons by div_mod_lia.
  unfold utf8_step at 1 2. cbn [utf8_idle u_needed]. change (0 =? 0) with true. cbv iota.
  rewrite utf8_lead_4 by div_mod_lia. cbn [fst snd app].
  rewrite decode_cons by div_mod_lia.
  rewrite utf8_step_continue; cbn [u_needed u_seen u_lower u_upper u_code_point];
    [|done|div_mod_lia|].
  2: { destruct (N.eqb_spec (240 + cp / 262144) 240), (N.eqb_spec (240 + cp / 262144) 244);
         div_mod_lia. }
  change (0 + 1 =? 3) with false. cbv iota. cbn [fst snd app].
  rewrite decode_cons by div_mod_lia.
  rewrite utf8_step_continue; cbn [u_needed u_seen u_lower u_upper u_code_point];
    [|done|div_mod_lia|div_mod_lia].
  change (0 + 1 + 1 =? 3) with false. cbv iota. cbn [fst snd app].
  rewrite decode_cons by div_mod_lia.
  rewrite utf8_step_continue; cbn [u_needed u_seen u_lower u_upper u_code_point];
    [|done|div_mod_lia|div_mod_lia].
  change (0 + 1 + 1 + 1 =? 3) with true. cbv iota. cbn [fst snd app]. f_equal. div_mod_lia.
Qed.

(** Encoding and then decoding a text of scalar values gives it back. *)
Lemma utf8_decode_encode (t : text) :
  Forall valid_scalar t → utf8_decode (utf8_encode t) = t.
Proof.
  unfold utf8_decode. induction 1 as [|cp t Hcp Ht IH]; [done|].
  cbn [utf8_encode foldr]. fold (utf8_encode t). rewrite decode_encode_cp by done.
  by rewrite IH.
Qed.

(** X15: a text of Unicode scalar values written with [writeFileSync]
    is what [readFile] returns for that path afterwards. *)
Theorem writeFileSync_then_readFile (p : string) (data : text) (w : World) :
  Forall valid_scalar data →
  (writeFileSync p data ;;; readFile p) w
  = (Ok data, with_files (insert p (utf8_encode data)) w).
Proof.
  intros Hvalid. unfold bind, writeFileSync, readFile. cbn [files with_files].
  by rewrite lookup_insert_eq, utf8_decode_encode.
Qed.

(** X16: over the tests of a spec, with a serialization of the raw
    artifact that is made of scalar values and that [JSON.parse] reads
    back, and a merge that keeps the URLs of its inputs, the raw
    artifact holds at the end the URL of every script it held at the
    start and of every script the filter accepted from any capture. *)
Theorem raw_artifact_keeps_every_test {L : Libraries} (o : CypressV8CoverageOptions)
    (specFileName : string) (captures : list ProcessCov) (w : World) (prev : ProcessCov) :
  (∀ covs cov script, cov ∈ covs → script ∈ result cov →
     ∃ script', script' ∈ result (mergeProcessCovs covs) ∧ url script' = url script) →
  (∀ cov, Forall valid_scalar (stringify_v8 cov)) →
  (∀ cov, parse_v8 (stringify_v8 cov) = Some cov) →
  priorArtifact parse_v8 {| result := [] |} (files w) (rawArtifact o specFileName) prev →
  ∃ final,
    priorArtifact parse_v8 {| result := [] |}
      (files (tests_end o specFileName captures w)) (rawArtifact o specFileName) final ∧
    (∀ u, u ∈ urls prev → u ∈ urls final) ∧
    (∀ capture script, capture ∈ captures → script ∈ result capture →
       filterV8CoverageResult o script = true → url script ∈ urls final).
Proof.
  intros Hmerge Hvalid Hparse Hprev.
  apply raw_artifact_accumulates_over_tests; try done.
  intros cov. by rewrite utf8_decode_encode.
Qed.

(** * The connection to the browser *)

(** X17: the launch handler schedules a connection attempt exactly when
    the browser is Chrome and an argument starts with
    [--remote-debugging-port]; it then returns the launch options and
    prints nothing.  Otherwise it prints one error, schedules nothing and
    returns [undefined].  It never touches the files or the session. *)
Theorem v8CoverageBrowserHandler_schedules (browserName : string) (args : list string)
    (rt : Runtime) :
  let ret := (v8CoverageBrowserHandler browserName args rt).1 in
  let rt' := (v8CoverageBrowserHandler browserName args rt).2 in
  world rt' = world rt ∧ listeners rt' = listeners rt ∧
  ((browserName = "chrome" ∧ ∃ arg, arg ∈ args ∧ startsWith arg portPrefix = true) →
   ret = Some args ∧ launch_console rt' = launch_console rt ∧
   ∃ rdpArg, rdpArg ∈ args ∧ startsWith rdpArg portPrefix = true ∧
     timers rt' = (timers rt ++ [ {| timer_port := portText rdpArg;
                                     timer_disconnected := false |} ])%list) ∧
  ((browserName ≠ "chrome" ∨ ∀ arg, arg ∈ args → startsWith arg portPrefix = false) →
   ret = None ∧ timers rt' = timers rt ∧
   ∃ d, launch_console rt' = (launch_console rt ++ [d])%list).
Proof.
  unfold v8CoverageBrowserHandler.
  destruct (String.eqb_spec browserName "chrome") as [Hchrome|Hother]; cbn [negb].
  - destruct (List.find _ args) as [rdpArg|] eqn:Hfind;
      cbn [fst snd world listeners timers launch_console setTimeout launch_error].
    + apply find_some in Hfind as [Hin Hstarts]. apply list_elem_of_In in Hin.
      split; [done|]. split; [done|]. split.
      * intros _. split; [done|]. split; [done|]. by exists rdpArg.
      * intros [Hne | Hnone]; [done|]. by rewrite (Hnone _ Hin) in Hstarts.
    + split; [done|]. split; [done|]. split.
      * intros [_ (arg & Hin & Hstarts)]. apply list_elem_of_In in Hin.
        by rewrite (find_none _ _ Hfind arg Hin) in Hstarts.
      * intros _. split; [done|]. split; [done|]. by eexists.
  - cbn [fst snd world listeners timers launch_console setTimeout launch_error].
    split; [done|]. split; [done|]. split.
    + by intros [? _].
    + intros _. split; [done|]. split; [done|]. by eexists.
Qed.

Lemma split_from_plain (sep : ascii) (v cur : string) :
  sep ∉ list_ascii_of_string v → split_from sep v cur = [cur +:+ v].
Proof.
  revert cur. induction v as [|c v IH]; intros cur Hno; cbn [split_from].
  - f_equal. induction cur as [|d cur IHcur]; [done|]. rewrite append_cons. by f_equal.
  - cbn [list_ascii_of_string] in Hno. apply not_elem_of_cons in Hno as [Hne Hno].
    destruct (Ascii.eqb_spec c sep); [congruence|]. rewrite IH by done. f_equal.
    induction cur as [|d cur IHcur]; [done|]. rewrite !append_cons. by f_equal.
Qed.

Lemma split_from_sep (sep : ascii) (name rest cur : string) :
  sep ∉ list_ascii_of_string name →
  split_from sep (name +:+ String sep rest) cur = (cur +:+ name) :: split_from sep rest "".
Proof.
  revert cur. induction name as [|c name IH]; intros cur Hno.
  - change ("" +:+ String sep rest) with (String sep rest). cbn [split_from].
    rewrite Ascii.eqb_refl. f_equal.
    induction cur as [|d cur IHcur]; [done|]. rewrite append_cons. by f_equal.
  - cbn [list_ascii_of_string] in Hno. apply not_elem_of_cons in Hno as [Hne Hno].
    rewrite append_cons. cbn [split_from].
    destruct (Ascii.eqb_spec c sep); [congruence|]. rewrite IH by done. f_equal.
    induction cur as [|d cur IHcur]; [done|]. rewrite !append_cons. by f_equal.
Qed.

Lemma v8CoverageBrowserHandler_world (browserName : string) (args : list string)
    (rt : Runtime) :
  world (v8CoverageBrowserHandler browserName args rt).2 = world rt ∧
  listeners (v8CoverageBrowserHandler browserName args rt).2 = listeners rt.
Proof.
  unfold v8CoverageBrowserHandler. destruct (negb _); [done|]. by destruct (List.find _ _).
Qed.

(** X18: the port is the text between the first and the second [=] of
    the argument.  For an argument [name=value] it is [value]; what
    follows a second [=] is dropped; an argument without [=] gives
    [undefined]. *)
Theorem portText_reads_value (name : string) :
  "="%char ∉ list_ascii_of_string name →
  portText name = None ∧
  (∀ value, "="%char ∉ list_ascii_of_string value →
     portText (name +:+ "=" +:+ value) = Some value ∧
     ∀ rest, portText (name +:+ "=" +:+ value +:+ "=" +:+ rest) = Some value).
Proof.
  intros Hname. unfold portText, split. split.
  - by rewrite split_from_plain.
  - intros value Hvalue. split.
    + change ("=" +:+ value) with (String "=" value).
      by rewrite split_from_sep, split_from_plain.
    + intros rest. change ("=" +:+ value +:+ "=" +:+ rest)
        with (String "=" (value +:+ String "=" rest)).
      by rewrite !split_from_sep.
Qed.

Section Connection.
Context {L : Libraries} (o : CypressV8CoverageOptions).

Lemma runHook_keeps_session (call : HookCall) (w : World) :
  is_Some (cdp w) → is_Some (cdp (runHook o call w).2).
Proof.
  intros [s Hs]. destruct call as [name| |name|name]; cbn [runHook].
  - rewrite v8CoverageBefore_run. cbn. by rewrite Hs.
  - unfold v8CoverageBeforeEach. rewrite Hs. unfold bind, send. rewrite Hs.
    destruct (rejection s _); cbn; by eexists.
  - destruct (v8CoverageAfterEach_outcome o name w) as (r & w' & -> & _ & _ & Hr).
    cbn [snd]. rewrite Hs in Hr.
    destruct Hr as [(_ & _ & Hcdp) | (_ & _ & _ & Hcdp)]; rewrite Hcdp; by eexists.
  - destruct (v8CoverageAfter_outcome o name w) as (r & w' & -> & _ & Hcdp & _).
    cbn [snd]. rewrite Hcdp, Hs. by eexists.
Qed.

Lemma step_keeps_session (rt : Runtime) (ev : Event) :
  is_Some (cdp (world rt)) → is_Some (cdp (world (step o rt ev))).
Proof.
  intros Hs. destruct ev as [browserName args|i outcome|j|snap rej|call]; cbn [step].
  - by rewrite (proj1 (v8CoverageBrowserHandler_world browserName args rt)).
  - destruct (timers rt !! i) as [t|]; [|done]. unfold tryConnect.
    destruct outcome as [client|err]; [cbn; by eexists|].
    by destruct (negb _).
  - by destruct (listeners rt !! j).
  - cbn. destruct (cdp (world rt)); [cbn; by eexists | done].
  - cbn. by apply runHook_keeps_session.
Qed.

(** X19: once a connection has been made the session variable is never
    emptied again: after any sequence of launches, timers, disconnects,
    changes of what the client answers and tasks, [cdp] still holds a
    client.  So [beforeEach] never takes the path that warns of a lost
    connection: it prints nothing and sends its two commands to that
    client, also when the client has disconnected; it returns the two
    replies when the client accepts both commands and fails with the
    rejection of the client when it does not. *)
Theorem session_is_never_unset (events : list Event) (rt : Runtime) :
  is_Some (cdp (world rt)) →
  ∃ s r,
    cdp (world (run o events rt)) = Some s ∧
    v8CoverageBeforeEach (world (run o events rt))
    = (r, with_cdp (Some {| snapshot := snapshot s;
                            issued := (issued s ++ [Enable; StartPreciseCoverage true true])%list;
                            rejects := rejects s |})
                   (world (run o events rt))) ∧
    (rejects s Enable = None → rejects s (StartPreciseCoverage true true) = None →
     r = Ok (Replies [Enable; StartPreciseCoverage true true])) ∧
    (∀ v, r = Ok v →
          rejects s Enable = None ∧ rejects s (StartPreciseCoverage true true) = None) ∧
    (∀ e, r = Throw e →
          rejects s Enable = Some e ∨ rejects s (StartPreciseCoverage true true) = Some e).
Proof.
  intros Hs.
  assert (Hrun : is_Some (cdp (world (run o events rt)))).
  { unfold run. revert rt Hs. induction events as [|ev events IH]; intros rt Hs; [done|].
    cbn [foldl]. apply IH. by apply step_keeps_session. }
  destruct Hrun as [s Hrun]. exists s.
  unfold v8CoverageBeforeEach. rewrite Hrun. unfold bind, send. rewrite Hrun.
  unfold rejection. cbn [omap list_omap].
  destruct (rejects s Enable) as [e1|] eqn:Henable;
    destruct (rejects s (StartPreciseCoverage true true)) as [e2|] eqn:Hstart;
    cbn [head]; eexists; (split; [done|]); (split; [reflexivity|]);
    repeat split; try done; intros ? Heq; injection Heq as <-; auto.
Qed.

Lemma step_pending (rt : Runtime) (ev : Event) :
  (List.length (timers (step o rt ev)) + List.length (listeners (step o rt ev))
   ≤ List.length (timers rt) + List.length (listeners rt) + launches [ev])%nat.
Proof.
  destruct ev as [browserName args|i outcome|j|snap rej|call]; cbn [step].
  - unfold v8CoverageBrowserHandler, launches. cbn [List.filter List.length].
    destruct (negb _); [cbn; lia|]. destruct (List.find _ _); cbn; [|lia].
    rewrite length_app. cbn. lia.
  - unfold launches. cbn [List.filter List.length].
    destruct (timers rt !! i) as [t|] eqn:Ht; [|lia].
    pose proof (length_delete (timers rt) i (ex_intro _ t Ht)) as Hlen.
    assert (List.length (timers rt) > 0)%nat by (apply lookup_lt_Some in Ht; lia).
    unfold tryConnect. destruct outcome as [client|err].
    + cbn. rewrite length_app. cbn. lia.
    + destruct (negb _); cbn; [rewrite length_app; cbn|]; lia.
  - unfold launches. cbn [List.filter List.length].
    destruct (listeners rt !! j) as [rdp|] eqn:Hj; [|lia].
    pose proof (length_delete (listeners rt) j (ex_intro _ rdp Hj)) as Hlen.
    assert (List.length (listeners rt) > 0)%nat by (apply lookup_lt_Some in Hj; lia).
    cbn. rewrite length_app. cbn. lia.
  - cbn. unfold launches. cbn. lia.
  - cbn. unfold launches. cbn. lia.
Qed.

(** X20: each launch of a browser leaves at most one thing waiting: a
    pending connection attempt or a client whose disconnection will
    schedule one.  However timers fire, connections fail and clients
    disconnect, the pending timers and listening clients together never
    outnumber the launches, so no second retry loop is started. *)
Theorem pending_connections_bounded (events : list Event) (rt : Runtime) :
  (List.length (timers (run o events rt)) + List.length (listeners (run o events rt))
   ≤ List.length (timers rt) + List.length (listeners rt) + launches events)%nat.
Proof.
  unfold run. revert rt. induction events as [|ev events IH]; intros rt.
  - cbn. lia.
  - cbn [foldl]. specialize (IH (step o rt ev)). pose proof (step_pending rt ev) as Hstep.
    assert (Hl : launches (ev :: events) = (launches [ev] + launches events)%nat).
    { unfold launches. cbn [List.filter]. destruct ev; cbn; lia. }
    lia.
Qed.

End Connection.

(** * Where the entries of the report come from *)

Lemma foldM_invariant_in {A B} (f : B → A → M A) (I : A → Prop)
    (fs : gmap string string) (l : list B) :
  (∀ x a, reads_and_prints (f x a)) →
  (∀ x a w a' w', x ∈ l → files w = fs → f x a w = (Ok a', w') → I a → I a') →
  ∀ acc w acc' w', files w = fs → foldM f l acc w = (Ok acc', w') → I acc → I acc'.
Proof.
  intros Hrp. induction l as [|x l IH]; intros Hf acc w acc' w' Hfs Hrun Hacc;
    cbn [foldM] in Hrun.
  - unfold ret in Hrun. congruence.
  - unfold bind in Hrun. destruct (f x acc w) as [[acc1|e] w1] eqn:Hstep; [|done].
    pose proof (rp_files _ _ _ _ (Hrp x acc) Hstep) as Hfiles.
    eapply (IH (λ y a w0 a' w0' Hy, Hf y a w0 a' w0' (list_elem_of_further _ _ _ Hy)) acc1 w1);
      [congruence | exact Hrun |].
    eapply Hf; eauto. apply list_elem_of_here.
Qed.

Section Provenance.
Context {L : Libraries} (o : CypressV8CoverageOptions) (existing : CoverageMap)
  (coverage : ProcessCov) (w : World).

Local Abbreviation known m :=
  (∀ file, is_Some (m !! file) →
     is_Some (existing !! file) ∨ ∃ c, converted_for o w coverage c ∧ is_Some (c !! file)).

Lemma known_merge (m c : CoverageMap) :
  known m → converted_for o w coverage c → known (cm_merge m c).
Proof.
  intros Hm Hc file Hfile. apply cm_merge_lookup in Hfile as [Hfile|Hfile]; [by apply Hm|].
  right. eauto.
Qed.

Lemma convertScript_known (script : ScriptCoverage) (m m' : CoverageMap) (w0 w' : World) :
  script ∈ result coverage → files w0 = files w →
  convertScript o script m w0 = (Ok m', w') → known m → known m'.
Proof.
  intros Hscript Hfs. unfold convertScript.
  destruct (url_pathname (url script)) as [jsFileName|] eqn:Hurl; [|done].
  unfold bind. set (filePath := path_resolve (buildDir o +:+ jsFileName)).
  destruct (rp_getSources o filePath w0 w Hfs) as (r & msgs & Hsources & Hsources').
  rewrite Hsources. destruct r as [bundle|e]; [|done].
  destruct (text_falsy _).
  - unfold ret. intros Hrun Hm. by injection Hrun as <- _.
  - unfold convertCoverage, try_catch. cbn [files printed]. rewrite Hfs.
    destruct (v8ToIstanbul _ _ _ _ _ _) as [c|e] eqn:Hconv.
    + unfold ret. intros Hrun Hm. injection Hrun as <- _.
      apply known_merge; [done|]. left. exists script, jsFileName, bundle.
      fold filePath. by rewrite Hsources'.
    + unfold bind, error, ret. intros Hrun Hm. by injection Hrun as <- _.
Qed.

Lemma convertUntested_known (testedFiles : list string) (script : ScriptCoverage)
    (m m' : CoverageMap) (w0 w' : World) :
  script ∈ result (mergeProcessCovs
                     ({| result := [] |} ::
                      map (λ f, {| result := [synthesized (files w) f] |})
                          (untestedFiles o testedFiles (files w)))) →
  files w0 = files w →
  convertUntested script m w0 = (Ok m', w') → known m → known m'.
Proof.
  intros Hscript Hfs. unfold convertUntested, bind, convertCoverage, try_catch.
  cbn [source originalSource sourceMap]. rewrite Hfs.
  destruct (v8ToIstanbul _ _ _ _ _ _) as [c|e] eqn:Hconv.
  - unfold ret. intros Hrun Hm. injection Hrun as <- _.
    apply known_merge; [done|]. right. by exists testedFiles, script.
  - unfold bind, error, ret. intros Hrun Hm. by injection Hrun as <- _.
Qed.


End Provenance.

(** * A whole spec *)

Section WholeSpec.
Context {L : Libraries} (o : CypressV8CoverageOptions) (specFileName : string).

Local Abbreviation raw := (rawArtifact o specFileName).
Local Abbreviation canon := (canonicalArtifact o specFileName).

Hypothesis stringify_valid : ∀ cov, Forall valid_scalar (stringify_v8 cov).
Hypothesis parse_stringify : ∀ cov, parse_v8 (stringify_v8 cov) = Some cov.

Lemma tests_end_files (captures : list ProcessCov) :
  ∀ w prev,
    priorArtifact parse_v8 {| result := [] |} (files w) raw prev →
    captures ≠ [] →
    files (tests_end o specFileName captures w)
    = <[ raw := utf8_encode (stringify_v8 (accumulate o prev captures)) ]> (files w).
Proof.
  unfold tests_end, accumulate.
  induction captures as [|capture captures IH]; intros w prev Hprev Hne; [done|].
  cbn [foldl].
  set (w0 := with_cdp (Some {| snapshot := Ok capture; issued := [];
                               rejects := λ _, None |}) w).
  destruct (v8CoverageAfterEach_run o specFileName w0 _ capture prev eq_refl eq_refl Hprev)
    as (w1 & Hrun & Hfiles & _).
  assert (Hw1 : test_ends o specFileName w capture = w1).
  { unfold test_ends. fold w0. by rewrite Hrun. }
  rewrite Hw1. destruct captures as [|capture' captures]; [done|].
  rewrite (IH w1 (mergeProcessCovs
                    [prev; {| result := List.filter (filterV8CoverageResult o)
                                                    (result capture) |}])); [|  |done].
  - rewrite Hfiles. cbn [files with_cdp]. apply insert_insert_eq.
  - unfold priorArtifact. rewrite Hfiles, lookup_insert_eq.
    by rewrite utf8_decode_encode.
Qed.

(** X22: a whole spec, from the before-hook through its tests to the
    after-hook.  When the raw artifact reads back as written and the
    conversion of what the tests accumulated returns a map, the
    after-hook returns [null] and the only difference to the files from
    before the spec is that the raw artifact is absent and the
    canonical artifact is the serialization of that map, converted
    from the captures alone, starting from the empty map. *)
Theorem spec_run_end_to_end (captures : list ProcessCov) (w w3 : World) (m : CoverageMap) :
  raw ≠ canon →
  captures ≠ [] →
  let w2 := tests_end o specFileName captures (v8CoverageBefore o specFileName w).2 in
  generateCoverage o (accumulate o {| result := [] |} captures) ∅ w2 = (Ok m, w3) →
  ∃ w',
    v8CoverageAfter o specFileName w2 = (Ok Null, w') ∧
    files w' = <[ canon := utf8_encode (stringify_istanbul m) ]> (delete raw (files w)).
Proof.
  intros Hne Hcaptures w2 Hgen.
  assert (Hw2 : files w2
                = <[ raw := utf8_encode (stringify_v8 (accumulate o {| result := [] |} captures)) ]>
                    (delete canon (delete raw (files w)))).
  { unfold w2. rewrite v8CoverageBefore_run. cbn [snd].
    rewrite (tests_end_files captures _ {| result := [] |}); [done| |done].
    unfold priorArtifact. cbn [files with_files].
    destruct (decide (canon = raw)) as [Heq|Hne']; [by destruct Hne|].
    by rewrite lookup_delete_ne, lookup_delete_eq. }
  destruct (v8CoverageAfter_run o specFileName w2 w3
              (utf8_encode (stringify_v8 (accumulate o {| result := [] |} captures)))
              (accumulate o {| result := [] |} captures) ∅ m)
    as (w' & Hrun & Hfiles & _); try done.
  - rewrite Hw2. apply lookup_insert_eq.
  - by rewrite utf8_decode_encode.
  - unfold priorArtifact. by rewrite Hw2, lookup_insert_ne, lookup_delete_eq.
  - exists w'. split; [done|]. rewrite Hfiles, Hw2. apply map_eq. intros p.
    destruct (decide (p = raw)) as [->|Hraw].
    + by rewrite lookup_delete_eq, lookup_insert_ne, lookup_delete_eq.
    + rewrite lookup_delete_ne by done.
      destruct (decide (p = canon)) as [->|Hcanon]; [by rewrite !lookup_insert_eq|].
      rewrite !lookup_insert_ne by done. rewrite !lookup_delete_ne by done. done.
Qed.

End WholeSpec.

(** * The examples, further *)

Lemma of_digits_digits (p : positive) : Binary.of_digits (Binary.digits p) = Some p.
Proof. induction p as [p IH|p IH|]; cbn [Binary.digits Binary.of_digits]; by rewrite ?IH. Qed.

Lemma digits_valid (p : positive) : Forall valid_scalar (Binary.digits p).
Proof.
  induction p as [p IH|p IH|]; cbn [Binary.digits]; constructor; try done;
    left; lia.
Qed.

Lemma map_inverse {A B} (f : A → B) (g : B → A) (l : list A) :
  (∀ x, g (f x) = x) → map g (map f l) = l.
Proof. intros Hgf. induction l as [|x l IH]; cbn; [done | by rewrite Hgf, IH]. Qed.

Lemma report_of_code (c : ProcessCov) : Binary.report_of (Binary.report_code c) = c.
Proof.
  destruct c as [scripts]. unfold Binary.report_of, Binary.report_code. cbn [result]. f_equal.
  apply map_inverse. intros [id u fns]. unfold Binary.script_of, Binary.script_code. cbn.
  f_equal. apply map_inverse. intros [name rs block].
  unfold Binary.function_of, Binary.function_code. cbn. f_equal.
  apply map_inverse. by intros [a b c].
Qed.

Lemma parse_print (c : ProcessCov) : Binary.parse (Binary.print c) = Some c.
Proof.
  unfold Binary.parse, Binary.print. rewrite of_digits_digits, decode_encode. cbn.
  by rewrite report_of_code.
Qed.

Lemma v8CoverageAfter_throw_keeps_files_witness :
  ∃ e w',
    @v8CoverageAfter Demo.libs Demo.options "App.cy.ts" Demo.after_tests_vendor
      = (Throw e, w') ∧
    files w' = files Demo.after_tests_vendor.
Proof.
  destruct (@v8CoverageAfter Demo.libs Demo.options "App.cy.ts" Demo.after_tests_vendor)
    as [[v|e] w'] eqn:Hrun; [vm_compute in Hrun; discriminate Hrun|].
  exists e, w'. split; [reflexivity|].
  exact (proj1 (@v8CoverageAfter_throw_keeps_files Demo.libs Demo.options "App.cy.ts"
                  Demo.after_tests_vendor w' e Hrun)).
Defined.

Lemma v8CoverageAfter_twice_witness :
  ∃ w',
    @v8CoverageAfter Demo.libs Demo.options "App.cy.ts" Demo.after_tests = (Ok Null, w') ∧
    @v8CoverageAfter Demo.libs Demo.options "App.cy.ts" w' = (Ok Null, w').
Proof.
  destruct (@v8CoverageAfter Demo.libs Demo.options "App.cy.ts" Demo.after_tests)
    as [[v|e] w'] eqn:Hrun; [|vm_compute in Hrun; discriminate Hrun].
  exists w'. split.
  - destruct v; [reflexivity | vm_compute in Hrun; discriminate Hrun].
  - exact (@v8CoverageAfter_twice Demo.libs Demo.options "App.cy.ts"
             Demo.after_tests w' v Hrun).
Defined.

Lemma v8CoverageBefore_forgets_witness :
  (@v8CoverageBefore Demo.libs Demo.options "App.cy.ts" Demo.after_tests).2
  = (@v8CoverageBefore Demo.libs Demo.options "App.cy.ts" Cases.clean).2.
Proof.
  apply (@v8CoverageBefore_forgets Demo.libs Demo.options "App.cy.ts"
           Demo.after_tests Cases.clean); try reflexivity.
  intros p Hraw _. unfold Demo.after_tests, Cases.clean, Demo.world_of. cbn [files].
  rewrite lookup_insert_ne; [done|]. intros <-. apply Hraw. vm_compute. reflexivity.
Defined.

Lemma v8CoverageAfterEach_touches_raw_only_witness :
  files (@v8CoverageAfterEach Demo.libs Demo.options "App.cy.ts" (Demo.live Cases.capture)).2
    !! "/app/src/App.tsx"
  = Some "export const App = 1;".
Proof.
  destruct (@v8CoverageAfterEach Demo.libs Demo.options "App.cy.ts" (Demo.live Cases.capture))
    as [r w'] eqn:Hrun.
  destruct (@v8CoverageAfterEach_touches_raw_only Demo.libs Demo.options "App.cy.ts"
              (Demo.live Cases.capture) w' r Hrun) as [Hframe _].
  cbn [snd]. rewrite Hframe; [vm_compute; reflexivity|].
  intros Heq. vm_compute in Heq. discriminate Heq.
Defined.


Lemma v8CoverageAfterEach_returns_witness :
  ∃ v w',
    @v8CoverageAfterEach Demo.libs Demo.options "App.cy.ts" (Demo.live Cases.capture)
      = (Ok v, w') ∧
    coverageDir Demo.options ∈ dirs w' ∧
    is_Some (files w' !! @rawArtifact Demo.libs Demo.options "App.cy.ts").
Proof.
  destruct (@v8CoverageAfterEach Demo.libs Demo.options "App.cy.ts" (Demo.live Cases.capture))
    as [[v|e] w'] eqn:Hrun; [|vm_compute in Hrun; discriminate Hrun].
  exists v, w'. split; [reflexivity|].
  destruct (@v8CoverageAfterEach_returns Demo.libs Demo.options "App.cy.ts"
              (Demo.live Cases.capture) w' v _ eq_refl Hrun) as (Hdir & Hfile & _).
  exact (conj Hdir Hfile).
Defined.

Lemma spec_run_starts_from_empty_witness :
  ∃ w3,
    @v8CoverageAfter Demo.libs Demo.options "App.cy.ts"
      (@tests_end Demo.libs Demo.options "App.cy.ts" [Cases.capture]
         (@v8CoverageBefore Demo.libs Demo.options "App.cy.ts" Cases.with_old_canonical).2)
    = (Ok Null, w3) ∧
    files w3 !! @rawArtifact Demo.libs Demo.options "App.cy.ts" = None ∧
    files w3 !! @canonicalArtifact Demo.libs Demo.options "App.cy.ts"
      = Some (utf8_encode
                (Demo.print_istanbul
                   (<[ "/app/src/Unused.tsx" := 0 ]> {[ "/app/src/App.tsx" := 5 ]}))).
Proof.
  set (w2 := @tests_end Demo.libs Demo.options "App.cy.ts" [Cases.capture]
               (@v8CoverageBefore Demo.libs Demo.options "App.cy.ts"
                  Cases.with_old_canonical).2).
  set (w3 := (@v8CoverageAfter Demo.libs Demo.options "App.cy.ts" w2).2).
  assert (Hrun : @v8CoverageAfter Demo.libs Demo.options "App.cy.ts" w2 = (Ok Null, w3))
    by (vm_compute; reflexivity).
  assert (Hne : @rawArtifact Demo.libs Demo.options "App.cy.ts"
                ≠ @canonicalArtifact Demo.libs Demo.options "App.cy.ts").
  { intros Heq. vm_compute in Heq. discriminate Heq. }
  destruct (@spec_run_starts_from_empty Demo.libs Demo.options "App.cy.ts"
              [Cases.capture] Cases.with_old_canonical w3 Null Hne Hrun)
    as (Hgone & _ & [[Hnone _] | (bytes & report & m & w' & Hraw & Hparse & Hgen & Hcanon)]).
  - vm_compute in Hnone. discriminate Hnone.
  - exists w3. split; [exact Hrun|]. split; [exact Hgone|].
    assert (Hbytes : bytes = utf8_encode (Demo.print_v8 Demo.index_report)).
    { assert (Hthere : files w2 !! @rawArtifact Demo.libs Demo.options "App.cy.ts"
                       = Some (utf8_encode (Demo.print_v8 Demo.index_report)))
        by (vm_compute; reflexivity).
      pose proof (eq_trans (eq_sym Hraw) Hthere) as Heq. by injection Heq. }
    subst bytes.
    assert (Hreport : @parse_v8 Demo.libs
                        (utf8_decode (utf8_encode (Demo.print_v8 Demo.index_report)))
                      = Some Demo.index_report) by (vm_compute; reflexivity).
    rewrite Hreport in Hparse. injection Hparse as <-.
    assert (Hm : @generateCoverage Demo.libs Demo.options Demo.index_report ∅ w2
                 = (Ok (<[ "/app/src/Unused.tsx" := 0 ]> {[ "/app/src/App.tsx" := 5 ]}), w2))
      by (vm_compute; reflexivity).
    pose proof (eq_trans (eq_sym Hgen) Hm) as Heq. injection Heq as -> _. exact Hcanon.
Defined.

Lemma generateCoverage_skips_script_witness :
  (@generateCoverage Demo.libs Demo.options
     {| result := [Cases.empty_script; Demo.index_script] |} ∅ Cases.with_empty_built).1
  = (@generateCoverage Demo.libs Demo.options
       {| result := [Demo.index_script] |} ∅ Cases.with_empty_built).1.
Proof.
  apply (@generateCoverage_skips_script Demo.libs Demo.options Cases.empty_script
           [] [Demo.index_script] ∅ Cases.with_empty_built "/assets/empty.js" "").
  - vm_compute. reflexivity.
  - vm_compute. reflexivity.
  - by left.
Defined.

Lemma untestedReports_exact_witness :
  ∃ reports,
    @untestedReports Demo.libs Demo.options ["/app/src/App.tsx"] Cases.clean
      = (Ok reports, Cases.clean) ∧
    map url (List.concat (map result reports)) = ["/app/src/Unused.tsx"].
Proof.
  destruct (@untestedReports Demo.libs Demo.options ["/app/src/App.tsx"] Cases.clean)
    as [[reports|e] w'] eqn:Hrun; [|vm_compute in Hrun; discriminate Hrun].
  destruct (@untestedReports_exact Demo.libs Demo.options ["/app/src/App.tsx"]
              Cases.clean w' reports Hrun) as (-> & -> & _).
  eexists. split; [reflexivity|]. vm_compute. reflexivity.
Defined.

Lemma getUntestedFileCoverage_unreadable_witness :
  ∃ f,
    @getUntestedFileCoverage Cases.stale_libs Demo.options [] Cases.clean
    = (Throw (ENOENT f), Cases.clean).
Proof.
  destruct (@getUntestedFileCoverage_unreadable Cases.stale_libs Demo.options []
              Cases.clean "/app/src/Gone.ts") as (f & _ & _ & Hrun).
  - apply (bool_decide_unpack _). vm_compute. exact I.
  - vm_compute. reflexivity.
  - by exists f.
Defined.

Lemma emptyReport_within_file_witness :
  ∃ f r,
    f ∈ functions (emptyReport Demo.accent_path (utf8_decode Demo.accent_bytes)) ∧
    r ∈ ranges f ∧ endOffset r ≤ byte_length Demo.accent_bytes.
Proof.
  set (r := {| startOffset := 0; endOffset := js_length (utf8_decode Demo.accent_bytes);
               count := 0 |}).
  set (f := {| functionName := "(empty-report)"; ranges := [r]; isBlockCoverage := true |}).
  assert (Hf : f ∈ functions (emptyReport Demo.accent_path (utf8_decode Demo.accent_bytes)))
    by (apply elem_of_cons; by left).
  assert (Hr : r ∈ ranges f) by (apply elem_of_cons; by left).
  exists f, r. split; [exact Hf|]. split; [exact Hr|].
  exact (proj1 (proj2 (emptyReport_within_file Demo.accent_path Demo.accent_bytes f r Hf Hr))).
Defined.

Lemma filterV8CoverageResult_monotone_witness :
  @filterV8CoverageResult Demo.libs Cases.two_origins Demo.index_script = true.
Proof.
  apply (@filterV8CoverageResult_monotone Demo.libs Demo.options Cases.two_origins).
  - apply (bool_decide_unpack _). vm_compute. exact I.
  - done.
  - intros p Hp. by apply elem_of_nil in Hp.
  - vm_compute. reflexivity.
Defined.

Lemma writeFileSync_then_readFile_witness :
  ((writeFileSync "/app/notes.txt" [104; 233; 128512] ;;; readFile "/app/notes.txt")
     Cases.clean).1
  = Ok [104; 233; 128512].
Proof.
  rewrite (writeFileSync_then_readFile "/app/notes.txt" [104; 233; 128512] Cases.clean);
    [reflexivity|].
  repeat constructor; unfold valid_scalar; lia.
Defined.

Lemma raw_artifact_keeps_every_test_witness :
  ∃ final,
    priorArtifact (@parse_v8 Binary.libs) {| result := [] |}
      (files (@tests_end Binary.libs Demo.options "App.cy.ts"
                [Cases.capture; Cases.capture] Cases.clean))
      (@rawArtifact Binary.libs Demo.options "App.cy.ts") final ∧
    url Demo.index_script ∈ urls final.
Proof.
  destruct (@raw_artifact_keeps_every_test Binary.libs Demo.options "App.cy.ts"
              [Cases.capture; Cases.capture] Cases.clean {| result := [] |})
    as (final & Hfinal & _ & Hcaptures).
  - exact merge_covs_keeps_urls.
  - intros cov. apply digits_valid.
  - exact parse_print.
  - vm_compute. reflexivity.
  - exists final. split; [exact Hfinal|].
    apply (Hcaptures Cases.capture Demo.index_script).
    + apply elem_of_cons. by left.
    + apply elem_of_cons. right. apply elem_of_cons. by left.
    + vm_compute. reflexivity.
Defined.

Lemma portText_reads_value_witness :
  portText "--remote-debugging-port=50052" = Some "50052".
Proof.
  refine (proj1 (proj2 (portText_reads_value portPrefix _) "50052" _)).
  - apply (bool_decide_unpack _). vm_compute. exact I.
  - apply (bool_decide_unpack _). vm_compute. exact I.
Defined.

Lemma session_is_never_unset_witness :
  ∃ s,
    cdp (world (@run Demo.libs Demo.options Cases.events Cases.connected)) = Some s ∧
    (v8CoverageBeforeEach (world (@run Demo.libs Demo.options Cases.events Cases.connected))).1
    = Throw (LibraryError "WebSocket is not open") ∧
    console (v8CoverageBeforeEach
               (world (@run Demo.libs Demo.options Cases.events Cases.connected))).2
    = [].
Proof.
  destruct (@session_is_never_unset Demo.libs Demo.options Cases.events Cases.connected)
    as (s & r & Hs & Hrun & _ & _ & Hthrow).
  - vm_compute. by eexists.
  - exists s. split; [exact Hs|]. rewrite Hrun. cbn [fst snd console with_cdp]. split.
    + assert (Hr : r = (v8CoverageBeforeEach
                          (world (@run Demo.libs Demo.options Cases.events Cases.connected))).1)
        by (by rewrite Hrun).
      rewrite Hr. vm_compute. reflexivity.
    + vm_compute. reflexivity.
Defined.


Lemma spec_run_end_to_end_witness :
  ∃ w',
    @v8CoverageAfter Binary.libs Demo.options "App.cy.ts"
      (@tests_end Binary.libs Demo.options "App.cy.ts" [Cases.capture]
         (@v8CoverageBefore Binary.libs Demo.options "App.cy.ts" Demo.after_tests).2)
    = (Ok Null, w') ∧
    files w' !! @canonicalArtifact Binary.libs Demo.options "App.cy.ts"
    = Some (utf8_encode
              (Demo.print_istanbul
                 (<[ "/app/src/Unused.tsx" := 0 ]> {[ "/app/src/App.tsx" := 5 ]}))).
Proof.
  destruct (@spec_run_end_to_end Binary.libs Demo.options "App.cy.ts"
              (λ cov, digits_valid _) parse_print [Cases.capture] Demo.after_tests
              (@tests_end Binary.libs Demo.options "App.cy.ts" [Cases.capture]
                 (@v8CoverageBefore Binary.libs Demo.options "App.cy.ts" Demo.after_tests).2)
              (<[ "/app/src/Unused.tsx" := 0 ]> {[ "/app/src/App.tsx" := 5 ]}))
    as (w' & Hrun & Hfiles).
  - intros Heq. vm_compute in Heq. discriminate Heq.
  - discriminate.
  - vm_compute. reflexivity.
  - exists w'. split; [exact Hrun|]. rewrite Hfiles. apply lookup_insert_eq.
Defined.
